(** * Cloud Instance Manager: a shallow embedding of the Python sources

    The development follows the repository file by file:
    - [src/config.py]        credential resolution from the process environment,
    - [src/aws_client.py]    the EC2 client factory,
    - [src/instances_cli.py] response extraction and the six command handlers,
    - [src/main.py]          the state-filter entry point and the menu loop.

    Python values are modelled by the JSON-like type [pyval]; exceptions are
    explicit ([result]); console and remote effects are threaded through a
    small state-and-exception monad over a [world]. A string is a sequence of
    Unicode code points below 256, one [ascii] per code point; [str.strip],
    [str.lower] and [repr] follow Python on every one of them. Text with
    code points from 256 on is outside the model. A statement that carries
    the guard [ascii_only] is made for ASCII entries, on which it does not
    depend on how other text is encoded. *)

From Stdlib Require Import ZArith Ascii String List Lia.
From stdpp Require Import base option list strings gmap pretty.

Set Warnings "-register-all".

Local Open Scope Z_scope.
Local Open Scope string_scope.
Local Open Scope list_scope.

(** ** Python values and exceptions *)

(** The values a parsed API response is built from. [PNone] is Python's
    [None]; a dictionary keeps its insertion order, so it is an association
    list read by its first matching key. *)
Inductive pyval : Type :=
| PNone
| PBool (b : bool)
| PInt (n : Z)
| PStr (s : string)
| PList (items : list pyval)
| PDict (entries : list (string * pyval)).

(** The exception classes that occur in the modelled code. [BotoCoreError]
    stands for every botocore error other than [NoCredentialsError] (a
    subclass handled by its own clause); [OtherException] for any further
    subclass of [Exception]. *)
Inductive exn_class : Type :=
| AttributeError
| KeyError
| IndexError
| TypeError
| ValueError
| EOFError
| ClientError
| NoCredentialsError
| BotoCoreError
| OtherException
| KeyboardInterrupt
| SystemExit (code : Z).

(** An exception object: its class and the text [str(exc)] gives. *)
Record exn : Type := Exn { exn_cls : exn_class; exn_str : string }.

Inductive result (A : Type) : Type :=
| Ok (a : A)
| Raise (e : exn).
Arguments Ok {A} a.
Arguments Raise {A} e.

Definition rbind {A B} (k : A -> result B) (r : result A) : result B :=
  match r with
  | Ok a => k a
  | Raise e => Raise e
  end.

#[global] Instance result_bind : MBind result := @rbind.
#[global] Instance result_ret : MRet result := @Ok.

(** [d.get(key)] on a dictionary's entries. *)
Fixpoint entries_get (entries : list (string * pyval)) (key : string)
  : option pyval :=
  match entries with
  | [] => None
  | (k, v) :: rest => if String.eqb k key then Some v else entries_get rest key
  end.

(** [d[key] = v]: an existing key keeps its position, a new key is added
    last. *)
Fixpoint entries_set (entries : list (string * pyval)) (key : string)
  (v : pyval) : list (string * pyval) :=
  match entries with
  | [] => [(key, v)]
  | (k, v0) :: rest =>
      if String.eqb k key then (k, v) :: rest
      else (k, v0) :: entries_set rest key v
  end.

(** The attribute call [value.get(key)]: only dictionaries have a [get]. *)
Definition py_get (value : pyval) (key : string) : result pyval :=
  match value with
  | PDict entries => Ok (default PNone (entries_get entries key))
  | _ => Raise (Exn AttributeError "object has no attribute 'get'")
  end.

(** Truth value of a Python object. *)
Definition truthy (v : pyval) : bool :=
  match v with
  | PNone => false
  | PBool b => b
  | PInt n => negb (Z.eqb n 0)
  | PStr s => negb (String.eqb s "")
  | PList items => match items with [] => false | _ => true end
  | PDict entries => match entries with [] => false | _ => true end
  end.

Definition is_none (v : pyval) : bool :=
  match v with PNone => true | _ => false end.

(** ** JMESPath: the fragment used by the extraction expression

    [jmespath] is a third-party package. Its tree interpreter is transcribed
    here for the node kinds the expression of
    [_extract_instances_from_response] parses to. *)
Module JMESPath.

Inductive expr : Type :=
| Field (name : string)
| Subexpression (children : list expr)
| Flatten (child : expr)
| Projection (lhs rhs : expr)
| MultiSelectDict (pairs : list (string * expr))
| Identity.

Section Loops.
Variable visit : expr -> pyval -> result pyval.

(** [visit_subexpression]: the children are applied left to right. *)
Fixpoint visit_children (children : list expr) (acc : pyval)
  : result pyval :=
  match children with
  | [] => Ok acc
  | node :: rest =>
      r ← visit node acc; visit_children rest r
  end.

(** [visit_multi_select_dict]: one entry per key-value pair. *)
Fixpoint visit_pairs (pairs : list (string * expr)) (value : pyval)
  (collected : list (string * pyval))
  : result (list (string * pyval)) :=
  match pairs with
  | [] => Ok collected
  | (key, child) :: rest =>
      v ← visit child value;
      visit_pairs rest value (entries_set collected key v)
  end.
End Loops.

(** The loop of [visit_flatten]: a list element is spliced in, any other
    element is kept. *)
Fixpoint merge (base : list pyval) : list pyval :=
  match base with
  | [] => []
  | PList inner :: rest => inner ++ merge rest
  | element :: rest => element :: merge rest
  end.

(** The loop of [visit_projection]: results that are [None] are dropped. *)
Fixpoint collect (f : pyval -> result pyval) (base : list pyval)
  : result (list pyval) :=
  match base with
  | [] => Ok []
  | element :: rest =>
      current ← f element;
      collected ← collect f rest;
      Ok (if is_none current then collected else current :: collected)
  end.

(** [visit_field]: the [AttributeError] of a value without [get] is caught
    and turned into [None]. *)
Definition visit_field (name : string) (value : pyval) : result pyval :=
  match py_get value name with
  | Ok v => Ok v
  | Raise e =>
      match exn_cls e with
      | AttributeError => Ok PNone
      | _ => Raise e
      end
  end.

Fixpoint visit (node : expr) (value : pyval) {struct node} : result pyval :=
  match node with
  | Field name => visit_field name value
  | Subexpression children => visit_children visit children value
  | Flatten child =>
      base ← visit child value;
      match base with
      | PList items => Ok (PList (merge items))
      | _ => Ok PNone
      end
  | Projection lhs rhs =>
      base ← visit lhs value;
      match base with
      | PList items =>
          collected ← collect (visit rhs) items; Ok (PList collected)
      | _ => Ok PNone
      end
  | MultiSelectDict pairs =>
      if is_none value then Ok PNone
      else (collected ← visit_pairs visit pairs value [];
            Ok (PDict collected))
  | Identity => Ok value
  end.

(** [jmespath.search] with an expression that is already parsed. *)
Definition search (expression : expr) (data : pyval) : result pyval :=
  visit expression data.

End JMESPath.

(** ** src/instances_cli.py: response extraction *)

Import JMESPath.

(** The parse of
    [Reservations[].Instances[].{id: InstanceId, state: State.Name,
      type: InstanceType, az: Placement.AvailabilityZone}]:
    each [[]] flattens everything to its left and projects what follows it. *)
Definition expression : expr :=
  Projection
    (Flatten (Projection (Flatten (Field "Reservations")) (Field "Instances")))
    (MultiSelectDict
       [("id", Field "InstanceId");
        ("state", Subexpression [Field "State"; Field "Name"]);
        ("type", Field "InstanceType");
        ("az", Subexpression [Field "Placement"; Field "AvailabilityZone"])]).

Definition _extract_instances_from_response (response : pyval)
  : result pyval :=
  instances ← search expression response;
  Ok (if truthy instances then instances else PList []).

(** ** Python string and formatting built-ins *)

Definition nl : string := String (ascii_of_nat 10) EmptyString.

(** [s * n] *)
Fixpoint str_repeat (s : string) (n : nat) : string :=
  match n with
  | O => ""
  | S n' => s +:+ str_repeat s n'
  end.

(** The code points below 256 that [str.isspace] accepts: tab to carriage
    return, the four separators 28 to 31, the space, NEXT LINE (133) and
    NO-BREAK SPACE (160). *)
Definition is_space (c : ascii) : bool :=
  let n := nat_of_ascii c in
  ((9 <=? n) && (n <=? 13) || (28 <=? n) && (n <=? 32)
   || (n =? 133) || (n =? 160))%nat.

Fixpoint lstrip (s : string) : string :=
  match s with
  | EmptyString => EmptyString
  | String c rest => if is_space c then lstrip rest else s
  end.

Fixpoint rstrip (s : string) : string :=
  match s with
  | EmptyString => EmptyString
  | String c rest =>
      match rstrip rest with
      | EmptyString => if is_space c then EmptyString else String c EmptyString
      | kept => String c kept
      end
  end.

(** [s.strip()] *)
Definition strip (s : string) : string := lstrip (rstrip s).

(** [str.lower] on one code point below 256: the letters A to Z, and the
    Latin-1 capitals 192 to 222 apart from the multiplication sign (215). *)
Definition lower_char (c : ascii) : ascii :=
  let n := nat_of_ascii c in
  if ((65 <=? n) && (n <=? 90)
      || (192 <=? n) && (n <=? 214) || (216 <=? n) && (n <=? 222))%nat
  then ascii_of_nat (n + 32) else c.

(** [s.lower()] *)
Fixpoint lower (s : string) : string :=
  match s with
  | EmptyString => EmptyString
  | String c rest => String (lower_char c) (lower rest)
  end.

(** Padding of the format specification [<width]. *)
Definition ljust (s : string) (width : nat) : string :=
  s +:+ str_repeat " " (width - String.length s).

Definition dquote : ascii := ascii_of_nat 34.
Definition squote : ascii := ascii_of_nat 39.
Definition backslash : ascii := ascii_of_nat 92.

Fixpoint str_contains (c : ascii) (s : string) : bool :=
  match s with
  | EmptyString => false
  | String c' rest => Ascii.eqb c c' || str_contains c rest
  end.

Definition hex_digit (n : nat) : ascii :=
  if (n <? 10)%nat then ascii_of_nat (48 + n) else ascii_of_nat (87 + n).

(** One character inside [repr] of a string delimited by [quote]. *)
Definition repr_char (quote c : ascii) : string :=
  let n := nat_of_ascii c in
  if Ascii.eqb c quote || Ascii.eqb c backslash
  then String backslash (String c EmptyString)
  else if (n =? 9)%nat then String backslash "t"
  else if (n =? 10)%nat then String backslash "n"
  else if (n =? 13)%nat then String backslash "r"
  else if ((n <? 32) || (127 <=? n) && (n <=? 160) || (n =? 173))%nat
  then String backslash
         (String "x" (String (hex_digit (n / 16))
                        (String (hex_digit (n mod 16)) EmptyString)))
  else String c EmptyString.

Fixpoint repr_chars (quote : ascii) (s : string) : string :=
  match s with
  | EmptyString => EmptyString
  | String c rest => repr_char quote c +:+ repr_chars quote rest
  end.

(** [repr(s)]: single quotes, unless the text has a single quote and no
    double quote. *)
Definition repr_str (s : string) : string :=
  let quote :=
    if str_contains squote s && negb (str_contains dquote s)
    then dquote else squote in
  String quote (repr_chars quote s) +:+ String quote EmptyString.

Fixpoint join (sep : string) (parts : list string) : string :=
  match parts with
  | [] => ""
  | [p] => p
  | p :: rest => p +:+ sep +:+ join sep rest
  end.

(** [repr(v)] *)
Fixpoint py_repr (v : pyval) : string :=
  match v with
  | PNone => "None"
  | PBool b => if b then "True" else "False"
  | PInt n => pretty n
  | PStr s => repr_str s
  | PList items => "[" +:+ join ", " (map py_repr items) +:+ "]"
  | PDict entries =>
      "{" +:+ join ", "
                (map (fun kv => repr_str (fst kv) +:+ ": " +:+ py_repr (snd kv))
                   entries) +:+ "}"
  end.

(** [str(v)], what an f-string field without a format specification shows. *)
Definition py_str (v : pyval) : string :=
  match v with
  | PStr s => s
  | _ => py_repr v
  end.

Definition type_name (v : pyval) : string :=
  match v with
  | PNone => "NoneType"
  | PBool _ => "bool"
  | PInt _ => "int"
  | PStr _ => "str"
  | PList _ => "list"
  | PDict _ => "dict"
  end.

(** The f-string field [{v:<width}]. Strings and integers are padded on the
    right (a [bool] is formatted as the integer it is); the other types
    reject a format specification. *)
Definition format_ljust (v : pyval) (width : nat) : result string :=
  match v with
  | PStr s => Ok (ljust s width)
  | PInt n => Ok (ljust (pretty n) width)
  | PBool b => Ok (ljust (if b then "1" else "0") width)
  | _ => Raise (Exn TypeError
                  ("unsupported format string passed to " +:+ type_name v
                   +:+ ".__format__"))
  end.

(** [v[key]] with a string key. *)
Definition py_getitem (v : pyval) (key : string) : result pyval :=
  match v with
  | PDict entries =>
      match entries_get entries key with
      | Some x => Ok x
      | None => Raise (Exn KeyError (repr_str key))
      end
  | PList _ =>
      Raise (Exn TypeError "list indices must be integers or slices, not str")
  | PStr _ => Raise (Exn TypeError "string indices must be integers, not 'str'")
  | _ => Raise (Exn TypeError
                  ("'" +:+ type_name v +:+ "' object is not subscriptable"))
  end.

(** [v[0]] *)
Definition py_getitem0 (v : pyval) : result pyval :=
  match v with
  | PList items =>
      match items with
      | x :: _ => Ok x
      | [] => Raise (Exn IndexError "list index out of range")
      end
  | PStr s =>
      match s with
      | String c _ => Ok (PStr (String c EmptyString))
      | EmptyString => Raise (Exn IndexError "string index out of range")
      end
  | PDict _ => Raise (Exn KeyError "0")
  | _ => Raise (Exn TypeError
                  ("'" +:+ type_name v +:+ "' object is not subscriptable"))
  end.

(** The elements a [for] loop visits. *)
Definition py_iter (v : pyval) : result (list pyval) :=
  match v with
  | PList items => Ok items
  | PDict entries => Ok (map (fun kv => PStr (fst kv)) entries)
  | PStr s =>
      Ok (map (fun c => PStr (String c EmptyString)) (list_ascii_of_string s))
  | _ => Raise (Exn TypeError
                  ("'" +:+ type_name v +:+ "' object is not iterable"))
  end.

(** [isinstance(exc, Exception)]: everything but the two exits. *)
Definition is_Exception (e : exn) : bool :=
  match exn_cls e with
  | KeyboardInterrupt | SystemExit _ => false
  | _ => true
  end.

(** ** The console, the remote API and the effect monad *)

(** What standard input delivers to one [input()] call: a line, or the
    interrupt key. An exhausted input is end-of-file. *)
Inductive input_event : Type :=
| Line (text : string)
| CtrlC.

(** What reaches standard output: the text of one [print] call (the newline
    it adds is left implicit) or the prompt written by [input]. *)
Inductive output : Type :=
| Printed (text : string)
| Prompted (text : string).

(** One element of a [Filters] argument. *)
Record ec2_filter : Type := Filter { Name : string; Values : list string }.

(** The remote operations with the keyword arguments they are called with.
    [DescribeInstances None] is the call without a [Filters] argument. *)
Inductive api_call : Type :=
| DescribeInstances (Filters : option (list ec2_filter))
| RunInstances (ImageId InstanceType : string) (MinCount MaxCount : Z)
| StopInstances (InstanceIds : list string)
| StartInstances (InstanceIds : list string)
| RebootInstances (InstanceIds : list string)
| TerminateInstances (InstanceIds : list string).

(** An EC2 client: the outcome of a call, which may depend on the calls
    made before it. *)
Definition remote : Type := list api_call -> api_call -> result pyval.

Record world : Type := World {
  stdin : list input_event;
  stdout : list output;
  calls : list api_call
}.

Definition M (A : Type) : Type := world -> result A * world.

Definition M_ret {A} (a : A) : M A := fun w => (Ok a, w).

Definition M_bind {A B} (k : A -> M B) (m : M A) : M B :=
  fun w =>
    match m w with
    | (Ok a, w') => k a w'
    | (Raise e, w') => (Raise e, w')
    end.

#[global] Instance M_mret : MRet M := @M_ret.
#[global] Instance M_mbind : MBind M := @M_bind.

Definition raise {A} (e : exn) : M A := fun w => (Raise e, w).

(** A pure computation that may raise. *)
Definition lift {A} (r : result A) : M A := fun w => (r, w).

(** [try: body except ...]: [handler] gives the clause that matches the
    exception, if any; effects of [body] before the exception remain. *)
Definition try_except {A} (body : M A) (handler : exn -> option (M A)) : M A :=
  fun w =>
    match body w with
    | (Ok a, w') => (Ok a, w')
    | (Raise e, w') =>
        match handler e with
        | Some clause => clause w'
        | None => (Raise e, w')
        end
    end.

Definition emit (o : output) (w : world) : world :=
  World (stdin w) (stdout w ++ [o]) (calls w).

Definition set_stdin (events : list input_event) (w : world) : world :=
  World events (stdout w) (calls w).

(** [print(text)] *)
Definition print (text : string) : M unit :=
  fun w => (Ok tt, emit (Printed text) w).

(** The read that follows the prompt of [input]. *)
Definition read_event (w : world) : result string * world :=
  match stdin w with
  | [] => (Raise (Exn EOFError "EOF when reading a line"), w)
  | Line text :: rest => (Ok text, set_stdin rest w)
  | CtrlC :: rest => (Raise (Exn KeyboardInterrupt ""), set_stdin rest w)
  end.

(** [input(prompt_text)] *)
Definition input (prompt_text : string) : M string :=
  fun w => read_event (emit (Prompted prompt_text) w).

(** A method call on the client: the call is recorded, then it returns or
    raises. *)
Definition invoke (ec2_client : remote) (call : api_call) : M pyval :=
  fun w =>
    (ec2_client (calls w) call, World (stdin w) (stdout w) (calls w ++ [call])).

Definition rule (n : nat) : string := str_repeat "=" n.

(** ** src/config.py *)

(** [os.getenv(key)] over a snapshot of the process environment (taken after
    [load_dotenv] has run). *)
Definition os_getenv (environ : gmap string string) (key : string)
  : option string :=
  environ !! key.

Definition get_aws_region (environ : gmap string string) : string :=
  default "us-east-1" (os_getenv environ "AWS_DEFAULT_REGION").

(** Truth value of what [os.getenv] returns: [None] and the empty string
    are false. *)
Definition truthy_env (v : option string) : bool :=
  match v with
  | Some s => negb (String.eqb s "")
  | None => false
  end.

Definition get_aws_credentials (environ : gmap string string)
  : result (gmap string string) :=
  let access_key := os_getenv environ "AWS_ACCESS_KEY_ID" in
  let secret_key := os_getenv environ "AWS_SECRET_ACCESS_KEY" in
  let session_token := os_getenv environ "AWS_SESSION_TOKEN" in
  if negb (truthy_env access_key) || negb (truthy_env secret_key) then
    Raise (Exn ValueError
             ("AWS credentials not found. " +:+
              "Please set AWS_ACCESS_KEY_ID and AWS_SECRET_ACCESS_KEY in your .env file."))
  else
    let credentials : gmap string string :=
      <["region_name" := get_aws_region environ]>
        (<["aws_secret_access_key" := default "" secret_key]>
           (<["aws_access_key_id" := default "" access_key]> ∅)) in
    let credentials :=
      if truthy_env session_token
      then <["aws_session_token" := default "" session_token]> credentials
      else credentials in
    Ok credentials.

(** ** src/aws_client.py *)

(** [boto3_client credentials] stands for [boto3.client("ec2", **credentials)],
    the constructor of the third-party SDK: it returns a client or raises.
    An SDK error that is both a botocore error and a [ValueError] is met by
    the first clause and counts as [ValueError]. *)
Definition create_ec2_client (environ : gmap string string)
  (boto3_client : gmap string string -> result remote) : M remote :=
  try_except
    (credentials ← lift (get_aws_credentials environ);
     ec2_client ← lift (boto3_client credentials);
     mret ec2_client)
    (fun exc =>
       match exn_cls exc with
       | ValueError =>
           Some (print ("Configuration error: " +:+ exn_str exc);;
                 raise (Exn (SystemExit 1) "1"))
       | NoCredentialsError =>
           Some (print ("AWS credentials not found. " +:+
                        "Please run 'aws configure' or set environment variables.");;
                 raise (Exn (SystemExit 1) "1"))
       | BotoCoreError =>
           Some (print ("Unexpected error while creating EC2 client: "
                        +:+ exn_str exc);;
                 raise (Exn (SystemExit 1) "1"))
       | _ => None
       end).

(** ** src/instances_cli.py: prompting and the command handlers *)

Definition required_message : string :=
  "Error: This value is required. Please try again.".

(** The [while True] loop of [_prompt_non_empty]. Every iteration that does
    not return consumes one input line, so the loop is written by recursion
    on the pending input; [_prompt_non_empty_unfold] below shows that it is
    the loop of the source. *)
Fixpoint prompt_loop (prompt_text : string) (pending : list input_event)
  (w : world) : result string * world :=
  let w := emit (Prompted prompt_text) w in
  match pending with
  | [] => (Raise (Exn EOFError "EOF when reading a line"), w)
  | CtrlC :: rest => (Raise (Exn KeyboardInterrupt ""), set_stdin rest w)
  | Line text :: rest =>
      let value := strip text in
      if negb (String.eqb value "") then (Ok value, set_stdin rest w)
      else prompt_loop prompt_text rest
             (emit (Printed required_message) (set_stdin rest w))
  end.

Definition _prompt_non_empty (prompt_text : string) : M string :=
  fun w => prompt_loop prompt_text (stdin w) w.

(** One row of the listing. *)
Definition format_row (inst : pyval) : result string :=
  id ← py_getitem inst "id";
  id ← format_ljust id 20;
  state ← py_getitem inst "state";
  state ← format_ljust state 12;
  type ← py_getitem inst "type";
  type ← format_ljust type 12;
  az ← py_getitem inst "az";
  Ok ("ID: " +:+ id +:+ " State: " +:+ state +:+ " " +:+
      "Type: " +:+ type +:+ " AZ: " +:+ py_str az).

Fixpoint print_rows (instances : list pyval) : M unit :=
  match instances with
  | [] => mret tt
  | inst :: rest =>
      row ← lift (format_row inst);
      print row;;
      print_rows rest
  end.

Definition list_instances (ec2_client : remote) (state_filter : option string)
  : M unit :=
  try_except
    (let filters :=
       if truthy_env state_filter
       then [Filter "instance-state-name" [default "" state_filter]]
       else [] in
     response ←
       match filters with
       | [] => invoke ec2_client (DescribeInstances None)
       | _ => invoke ec2_client (DescribeInstances (Some filters))
       end;
     instances ← lift (_extract_instances_from_response response);
     if negb (truthy instances) then
       if truthy_env state_filter
       then print (nl +:+ "No instances found in state: "
                   +:+ default "" state_filter)
       else print (nl +:+ "No instances found in this account or region.")
     else
       print (nl +:+ rule 70);;
       (if truthy_env state_filter
        then print ("Instances with state: " +:+ default "" state_filter)
        else print "All Instances");;
       print (rule 70);;
       rows ← lift (py_iter instances);
       print_rows rows;;
       print (rule 70))
    (fun exc =>
       match exn_cls exc with
       | ClientError =>
           Some (print (nl +:+ "Error: Failed to list instances.");;
                 print ("Details: " +:+ exn_str exc))
       | _ => None
       end).

Definition create_instance (ec2_client : remote) : M unit :=
  print (nl +:+ rule 70);;
  print "Create EC2 Instance";;
  print (rule 70);;
  print "Note: Use Free Tier eligible options (t2.micro or t3.micro)";;
  print "";;
  ami_id ← _prompt_non_empty
    "AMI ID (example for us-west-2 AL2023: ami-0b8c6b923777519db): ";
  instance_type ← _prompt_non_empty
    "Instance type (Free Tier: t2.micro or t3.micro): ";
  try_except
    (response ← invoke ec2_client (RunInstances ami_id instance_type 1 1);
     instance_id ← lift (instances ← py_getitem response "Instances";
                         first ← py_getitem0 instances;
                         py_getitem first "InstanceId");
     print (nl +:+ "Success: Instance created with ID: " +:+ py_str instance_id);;
     print (rule 70))
    (fun exc =>
       match exn_cls exc with
       | ClientError =>
           Some (print (nl +:+ "Error: Failed to create instance.");;
                 print ("Details: " +:+ exn_str exc);;
                 print (rule 70))
       | _ => None
       end).

Definition stop_instance (ec2_client : remote) : M unit :=
  print (nl +:+ rule 70);;
  print "Stop EC2 Instance";;
  print (rule 70);;
  instance_id ← _prompt_non_empty "Instance ID to stop: ";
  try_except
    (invoke ec2_client (StopInstances [instance_id]);;
     print (nl +:+ "Success: Stop request sent for instance "
            +:+ instance_id);;
     print (rule 70))
    (fun exc =>
       match exn_cls exc with
       | ClientError =>
           Some (print (nl +:+ "Error: Failed to stop instance "
                        +:+ instance_id);;
                 print ("Details: " +:+ exn_str exc);;
                 print (rule 70))
       | _ => None
       end).

Definition start_instance (ec2_client : remote) : M unit :=
  print (nl +:+ rule 70);;
  print "Start EC2 Instance";;
  print (rule 70);;
  instance_id ← _prompt_non_empty "Instance ID to start: ";
  try_except
    (invoke ec2_client (StartInstances [instance_id]);;
     print (nl +:+ "Success: Start request sent for instance "
            +:+ instance_id);;
     print (rule 70))
    (fun exc =>
       match exn_cls exc with
       | ClientError =>
           Some (print (nl +:+ "Error: Failed to start instance "
                        +:+ instance_id);;
                 print ("Details: " +:+ exn_str exc);;
                 print (rule 70))
       | _ => None
       end).

Definition reboot_instance (ec2_client : remote) : M unit :=
  print (nl +:+ rule 70);;
  print "Reboot EC2 Instance";;
  print (rule 70);;
  instance_id ← _prompt_non_empty "Instance ID to reboot: ";
  try_except
    (invoke ec2_client (RebootInstances [instance_id]);;
     print (nl +:+ "Success: Reboot request sent for instance "
            +:+ instance_id);;
     print (rule 70))
    (fun exc =>
       match exn_cls exc with
       | ClientError =>
           Some (print (nl +:+ "Error: Failed to reboot instance "
                        +:+ instance_id);;
                 print ("Details: " +:+ exn_str exc);;
                 print (rule 70))
       | _ => None
       end).

Definition terminate_instance (ec2_client : remote) : M unit :=
  print (nl +:+ rule 70);;
  print "Terminate EC2 Instance";;
  print (rule 70);;
  print "WARNING: This action cannot be undone!";;
  instance_id ← _prompt_non_empty "Instance ID to terminate: ";
  answer ← input (nl +:+ "Are you sure you want to terminate " +:+ instance_id
                  +:+ "?" +:+ nl +:+ "Type 'yes' to confirm: ");
  let confirmation := lower (strip answer) in
  if negb (String.eqb confirmation "yes") then
    print (nl +:+ "Termination cancelled.");;
    print (rule 70)
  else
    try_except
      (invoke ec2_client (TerminateInstances [instance_id]);;
       print (nl +:+ "Success: Terminate request sent for instance "
              +:+ instance_id);;
       print (rule 70))
      (fun exc =>
         match exn_cls exc with
         | ClientError =>
             Some (print (nl +:+ "Error: Failed to terminate instance "
                          +:+ instance_id);;
                   print ("Details: " +:+ exn_str exc);;
                   print (rule 70))
         | _ => None
         end).

(** ** src/main.py *)

Definition print_menu : M unit :=
  print (nl +:+ rule 50);;
  print "Cloud Instance Manager";;
  print (rule 50);;
  print "1. List all instances";;
  print "2. Create new instance";;
  print "3. Stop instance";;
  print "4. Start instance";;
  print "5. Reboot instance";;
  print "6. Terminate instance";;
  print "7. Filter instances by state";;
  print "0. Exit";;
  print (rule 50).

Definition valid_states : list string :=
  ["pending"; "running"; "stopping"; "stopped"; "terminated"].

(** [x in xs] for a list of strings. *)
Definition str_in (x : string) (xs : list string) : bool :=
  existsb (String.eqb x) xs.

Definition handle_filter_by_state (ec2_client : remote) : M unit :=
  print (nl +:+ rule 50);;
  print "Filter Instances by State";;
  print (rule 50);;
  print "Available states:";;
  print "  - pending";;
  print "  - running";;
  print "  - stopping";;
  print "  - stopped";;
  print "  - terminated";;
  entered ← input (nl +:+ "Enter state to filter by: ");
  let state := lower (strip entered) in
  if String.eqb state "" then
    print "Error: State cannot be empty."
  else
    (if negb (str_in state valid_states) then
       print ("Warning: '" +:+ state +:+ "' might not be a valid state.");;
       print "Proceeding anyway..."
     else mret tt);;
    list_instances ec2_client (Some state).

(** What one round of the menu loop asks of the loop. *)
Inductive loop_control : Type := Continue | Break.

(** The body of the [while True] loop of [main], with its two [except]
    clauses. *)
Definition menu_round (ec2_client : remote) : M loop_control :=
  try_except
    (print_menu;;
     entered ← input "Select an option: ";
     let option := strip entered in
     if String.eqb option "1" then list_instances ec2_client None;; mret Continue
     else if String.eqb option "2" then create_instance ec2_client;; mret Continue
     else if String.eqb option "3" then stop_instance ec2_client;; mret Continue
     else if String.eqb option "4" then start_instance ec2_client;; mret Continue
     else if String.eqb option "5" then reboot_instance ec2_client;; mret Continue
     else if String.eqb option "6" then terminate_instance ec2_client;; mret Continue
     else if String.eqb option "7" then handle_filter_by_state ec2_client;; mret Continue
     else if String.eqb option "0" then
       print (nl +:+ "Exiting Cloud Instance Manager. Goodbye!");; mret Break
     else
       print ("Error: '" +:+ option +:+ "' is not a valid option.");;
       mret Continue)
    (fun exc =>
       match exn_cls exc with
       | KeyboardInterrupt =>
           Some (print (nl +:+ nl +:+ "Operation cancelled by user.");;
                 print "Exiting Cloud Instance Manager. Goodbye!";;
                 mret Break)
       | _ =>
           if is_Exception exc then
             Some (print (nl +:+ "Unexpected error: " +:+ exn_str exc);;
                   print "Please try again or contact support.";;
                   mret Continue)
           else None
       end).

(** The menu loop. It has no bound of its own (at end of input it goes
    round for ever), so the model counts rounds: [None] means that [fuel]
    rounds were not enough. *)
Fixpoint menu_loop (ec2_client : remote) (fuel : nat) (w : world)
  : option (result unit * world) :=
  match fuel with
  | O => None
  | S fuel' =>
      match menu_round ec2_client w with
      | (Ok Continue, w') => menu_loop ec2_client fuel' w'
      | (Ok Break, w') => Some (Ok tt, w')
      | (Raise e, w') => Some (Raise e, w')
      end
  end.

Definition main (environ : gmap string string)
  (boto3_client : gmap string string -> result remote) (fuel : nat)
  (w : world) : option (result unit * world) :=
  match create_ec2_client environ boto3_client w with
  | (Ok ec2_client, w') => menu_loop ec2_client fuel w'
  | (Raise e, w') =>
      match exn_cls e with
      | SystemExit _ => Some (Ok tt, w')
      | _ => Some (Raise e, w')
      end
  end.

(** The exit status of the interpreter after [main()] at module level: 0 when
    it returns, the code of a [SystemExit] that escapes it, 130 (as a shell
    reports the interrupt signal) for an escaping [KeyboardInterrupt], 1 after
    any other uncaught exception. *)
Definition exit_status (r : result unit) : Z :=
  match r with
  | Ok _ => 0
  | Raise e =>
      match exn_cls e with
      | SystemExit code => code
      | KeyboardInterrupt => 130
      | _ => 1
      end
  end.

(** ** The extraction rule in the words of the specification *)

(** A field of a record, [None] when the record lacks it or is no record. *)
Definition field (record : pyval) (key : string) : pyval :=
  match record with
  | PDict entries => default PNone (entries_get entries key)
  | _ => PNone
  end.

(** The four-field summary of one instance record. *)
Definition summary (inst : pyval) : pyval :=
  PDict [("id", field inst "InstanceId");
         ("state", field (field inst "State") "Name");
         ("type", field inst "InstanceType");
         ("az", field (field inst "Placement") "AvailabilityZone")].

(** The instance sequence of one reservation record. *)
Definition instances_of (reservation : pyval) : list pyval :=
  match field reservation "Instances" with
  | PList insts => insts
  | _ => []
  end.

(** Reservations in order and, within each, instances in order. *)
Definition flattened (reservations : list pyval) : list pyval :=
  concat (map (fun r => map summary (instances_of r)) reservations).

Definition is_record (v : pyval) : Prop := exists entries, v = PDict entries.

(** A reservation record whose [Instances] entry is a sequence of instance
    records. *)
Definition is_reservation (v : pyval) : Prop :=
  exists entries insts,
    v = PDict entries /\
    entries_get entries "Instances" = Some (PList insts) /\
    Forall is_record insts.

(** A record with the four keys [id], [state], [type], [az] and no other. *)
Definition is_summary (v : pyval) : Prop :=
  exists id state type az,
    v = PDict [("id", id); ("state", state); ("type", type); ("az", az)].

(** ** Vocabulary for the statements about the handlers *)

(** An input line that [_prompt_non_empty] rejects. *)
Definition blank (text : string) : Prop := strip text = "".


(** What [_prompt_non_empty] writes when [n] blank lines precede the line it
    accepts: the prompt and the complaint [n] times, then the prompt. *)
Definition prompt_transcript (prompt_text : string) (n : nat) : list output :=
  concat (replicate n [Prompted prompt_text; Printed required_message])
  ++ [Prompted prompt_text].

(** The six commands and the handler the menu runs for each. *)
Inductive command : Type :=
| CmdList (state_filter : option string)
| CmdCreate
| CmdStop
| CmdStart
| CmdReboot
| CmdTerminate.

Definition handler (c : command) : remote -> M unit :=
  match c with
  | CmdList state_filter => fun ec2_client => list_instances ec2_client state_filter
  | CmdCreate => create_instance
  | CmdStop => stop_instance
  | CmdStart => start_instance
  | CmdReboot => reboot_instance
  | CmdTerminate => terminate_instance
  end.

(** The operation named in a handler's failure message. *)
Definition operation_name (c : command) : string :=
  match c with
  | CmdList _ => "list"
  | CmdCreate => "create"
  | CmdStop => "stop"
  | CmdStart => "start"
  | CmdReboot => "reboot"
  | CmdTerminate => "terminate"
  end.

(** [needle] occurs in [text]. *)
Definition occurs_in (needle text : string) : Prop :=
  exists before after, text = before +:+ needle +:+ after.

(** The heading of the state-filter entry point, up to its prompt. *)
Definition filter_heading : list output :=
  [Printed (nl +:+ rule 50);
   Printed "Filter Instances by State";
   Printed (rule 50);
   Printed "Available states:";
   Printed "  - pending";
   Printed "  - running";
   Printed "  - stopping";
   Printed "  - stopped";
   Printed "  - terminated";
   Prompted (nl +:+ "Enter state to filter by: ")].

(** The three startup failures the factory reports, and the line it prints
    for each. *)
Definition is_startup_failure (e : exn) : Prop :=
  exn_cls e = ValueError \/ exn_cls e = NoCredentialsError \/
  exn_cls e = BotoCoreError.


(** The body of the factory's [try]: resolve the credentials, then construct
    the client. *)
Definition construct (environ : gmap string string)
  (boto3_client : gmap string string -> result remote) : result remote :=
  credentials ← get_aws_credentials environ;
  boto3_client credentials.







(** [quiet m]: running [m] leaves the log of remote calls as it was. *)
Definition quiet {A} (m : M A) : Prop := forall w, calls (m w).2 = calls w.

(** [contains_client_errors m]: no [ClientError] escapes from [m]. *)
Definition contains_client_errors {A} (m : M A) : Prop :=
  forall w e, (m w).1 = Raise e -> exn_cls e <> ClientError.

(** What a failed call makes a handler report: [r] is the outcome of the
    handler started in [w]. It ends normally, and what it has written holds a
    line naming the failed operation and a line with the error's text. *)
Definition reports_failure (c : command) (e : exn) (r : result unit * world)
  (w : world) : Prop :=
  r.1 = Ok tt /\
  exists headline added,
    stdout r.2 = stdout w ++ added /\
    Printed headline ∈ added /\
    occurs_in ("Failed to " +:+ operation_name c) headline /\
    Printed ("Details: " +:+ exn_str e) ∈ added.

(** ** Sample data *)

(** A client whose every call succeeds with an empty response, a client
    whose every call is refused by the service, and an SDK constructor that
    returns the first. *)
Definition accepting_client : remote := fun _ _ => Ok (PDict []).

Definition refusing_client : remote :=
  fun _ _ =>
    Raise (Exn ClientError
             "An error occurred (UnauthorizedOperation) when calling the operation").


(** A client that cannot reach the service. *)
Definition unreachable_client : remote :=
  fun _ _ =>
    Raise (Exn BotoCoreError "Could not connect to the endpoint URL").

Definition sample_sdk : gmap string string -> result remote :=
  fun _ => Ok accepting_client.


Definition sample_instance (id state : string) : pyval :=
  PDict [("InstanceId", PStr id);
         ("State", PDict [("Name", PStr state)]);
         ("InstanceType", PStr "t2.micro");
         ("Placement", PDict [("AvailabilityZone", PStr "us-west-2a")])].

Definition sample_environ : gmap string string :=
  <["AWS_ACCESS_KEY_ID" := "A"]> (<["AWS_SECRET_ACCESS_KEY" := "B"]> ∅).

Definition sample_environ_with_token : gmap string string :=
  <["AWS_SESSION_TOKEN" := "T"]> sample_environ.

(** ** Vocabulary for the further properties *)

(** A reservation record whose [Instances] entry is absent, [None] or a
    sequence of any values. *)
Definition is_loose_reservation (v : pyval) : Prop :=
  exists entries,
    v = PDict entries /\
    (entries_get entries "Instances" = None \/
     entries_get entries "Instances" = Some PNone \/
     exists insts, entries_get entries "Instances" = Some (PList insts)).

(** The entries of an instance sequence that are not [None]. *)
Definition present (insts : list pyval) : list pyval :=
  filter (fun inst => is_none inst = false) insts.

(** A summary whose four fields are texts, and the row the listing prints
    for it. *)
Definition text_summary (row : string * string * string * string) : pyval :=
  let '(id, state, type, az) := row in
  PDict [("id", PStr id); ("state", PStr state); ("type", PStr type);
         ("az", PStr az)].

Definition row_text (row : string * string * string * string) : string :=
  let '(id, state, type, az) := row in
  "ID: " +:+ ljust id 20 +:+ " State: " +:+ ljust state 12 +:+ " " +:+
  "Type: " +:+ ljust type 12 +:+ " AZ: " +:+ az.

(** The describe call [list_instances] issues for a state filter. *)
Definition describe_call (state_filter : option string) : api_call :=
  DescribeInstances
    (if truthy_env state_filter
     then Some [Filter "instance-state-name" [default "" state_filter]]
     else None).

(** The call a handler may issue: its own operation, for identifiers that are
    not empty. *)
Definition call_of (c : command) (call : api_call) : Prop :=
  match c with
  | CmdList state_filter => call = describe_call state_filter
  | CmdCreate =>
      exists ami_id instance_type,
        ami_id <> "" /\ instance_type <> "" /\
        call = RunInstances ami_id instance_type 1 1
  | CmdStop => exists id, id <> "" /\ call = StopInstances [id]
  | CmdStart => exists id, id <> "" /\ call = StartInstances [id]
  | CmdReboot => exists id, id <> "" /\ call = RebootInstances [id]
  | CmdTerminate => exists id, id <> "" /\ call = TerminateInstances [id]
  end.

(** [at_most_one c m]: [m] adds nothing to the call log, or one call that
    [c] allows. *)
Definition at_most_one (allowed : api_call -> Prop) {A} (m : M A) : Prop :=
  forall w,
    calls (m w).2 = calls w \/
    exists call, calls (m w).2 = calls w ++ [call] /\ allowed call.

(** What [print_menu] writes, followed by the prompt for the option. *)
Definition menu_text : list output :=
  [Printed (nl +:+ rule 50);
   Printed "Cloud Instance Manager";
   Printed (rule 50);
   Printed "1. List all instances";
   Printed "2. Create new instance";
   Printed "3. Stop instance";
   Printed "4. Start instance";
   Printed "5. Reboot instance";
   Printed "6. Terminate instance";
   Printed "7. Filter instances by state";
   Printed "0. Exit";
   Printed (rule 50);
   Prompted "Select an option: "].







(** ** Induction over expressions

    The induction principle that reaches the expressions nested in the
    child lists of [Subexpression] and [MultiSelectDict]. *)
Section ExprInduction.
Variable P : expr -> Prop.
Hypothesis HField : forall name, P (Field name).
Hypothesis HSub : forall children, Forall P children -> P (Subexpression children).
Hypothesis HFlatten : forall child, P child -> P (Flatten child).
Hypothesis HProjection : forall lhs rhs, P lhs -> P rhs -> P (Projection lhs rhs).
Hypothesis HMulti :
  forall pairs, Forall (fun kv => P (snd kv)) pairs -> P (MultiSelectDict pairs).
Hypothesis HIdentity : P Identity.

Fixpoint expr_nested_ind (node : expr) : P node :=
  match node with
  | Field name => HField name
  | Subexpression children =>
      HSub children
        ((fix go (l : list expr) : Forall P l :=
            match l with
            | [] => @List.Forall_nil _ P
            | x :: rest => @List.Forall_cons _ P x rest (expr_nested_ind x) (go rest)
            end) children)
  | Flatten child => HFlatten child (expr_nested_ind child)
  | Projection lhs rhs =>
      HProjection lhs rhs (expr_nested_ind lhs) (expr_nested_ind rhs)
  | MultiSelectDict pairs =>
      HMulti pairs
        ((fix go (l : list (string * expr))
            : Forall (fun kv => P (snd kv)) l :=
            match l with
            | [] => @List.Forall_nil _ _
            | kv :: rest =>
                @List.Forall_cons _ (fun kv => P (snd kv)) kv rest
                  (expr_nested_ind (snd kv)) (go rest)
            end) pairs)
  | Identity => HIdentity
  end.
End ExprInduction.

(** * Properties *)

(** ** The JMESPath fragment never raises *)

Lemma visit_field_ok name value : exists v, visit_field name value = Ok v.
Proof. destruct value; simpl; eauto. Qed.

Lemma collect_ok (f : pyval -> result pyval) (items : list pyval) :
  Forall (fun x => exists y, f x = Ok y) items ->
  exists collected, collect f items = Ok collected.
Proof.
  induction 1 as [|x rest [y Hy] _ [c Hc]]; simpl; [eauto|].
  rewrite Hy; simpl. rewrite Hc; simpl. eauto.
Qed.

Lemma visit_ok node : forall value, exists v, visit node value = Ok v.
Proof.
  induction node as [name|children IH|child IH|lhs rhs IHl IHr|pairs IH|]
    using expr_nested_ind; intros value; simpl.
  - apply visit_field_ok.
  - revert value. induction IH as [|x rest Hx _ IHrest]; intros value; simpl.
    + eauto.
    + destruct (Hx value) as [r ->]. simpl. apply IHrest.
  - destruct (IH value) as [base ->]; simpl. destruct base; eauto.
  - destruct (IHl value) as [base ->]; simpl.
    destruct base; eauto.
    destruct (collect_ok (visit rhs) items) as [c ->]; simpl; eauto.
    apply Forall_forall. intros; apply IHr.
  - destruct (is_none value); [eauto|].
    assert (forall acc, exists c, visit_pairs visit pairs value acc = Ok c) as H.
    { induction IH as [|[k child] rest Hx _ IHrest]; intros acc; simpl; [eauto|].
      simpl in Hx. destruct (Hx value) as [r ->]. simpl. apply IHrest. }
    destruct (H []) as [c ->]. simpl. eauto.
  - eauto.
Qed.

Lemma projection_shape lhs rhs (value : pyval) :
  visit (Projection lhs rhs) value = Ok PNone \/
  exists collected, visit (Projection lhs rhs) value = Ok (PList collected).
Proof.
  change (visit (Projection lhs rhs) value)
    with (base ← visit lhs value;
          match base with
          | PList items =>
              collected ← collect (visit rhs) items; Ok (PList collected)
          | _ => Ok PNone
          end).
  destruct (visit_ok lhs value) as [base ->].
  destruct base; simpl; auto.
  destruct (collect_ok (visit rhs) items) as [c ->]; simpl; eauto.
  apply Forall_forall. intros x _. apply visit_ok.
Qed.

Lemma search_expression_shape (response : pyval) :
  search expression response = Ok PNone \/
  exists collected, search expression response = Ok (PList collected).
Proof. apply projection_shape. Qed.

(** C2. Extraction returns a sequence for every input dictionary and never
    raises; without a reservations key, with no reservation, and with
    reservations that hold no instance, the sequence is empty. *)
Theorem extract_total_and_empty_cases :
  (forall entries, exists summaries,
      _extract_instances_from_response (PDict entries) = Ok (PList summaries)) /\
  _extract_instances_from_response (PDict []) = Ok (PList []) /\
  _extract_instances_from_response (PDict [("Reservations", PList [])])
    = Ok (PList []) /\
  _extract_instances_from_response
    (PDict [("Reservations", PList [PDict [("Instances", PList [])]])])
    = Ok (PList []).
Proof.
  split; [|repeat split; reflexivity].
  intros entries. unfold _extract_instances_from_response.
  destruct (search_expression_shape (PDict entries)) as [->|[c ->]]; simpl.
  - eauto.
  - destruct c; eauto.
Qed.

(** ** Extraction on well-formed responses *)

Lemma merge_records (items : list pyval) :
  Forall is_record items -> merge items = items.
Proof.
  induction 1 as [|x rest [entries ->] _ IH]; simpl; [reflexivity|].
  now rewrite IH.
Qed.

Lemma merge_reservations (items : list pyval) :
  Forall is_reservation items -> merge items = items.
Proof.
  intros H. apply merge_records.
  eapply Forall_impl; [exact H|].
  intros x (entries & insts & -> & _). now exists entries.
Qed.

Lemma merge_lists (groups : list (list pyval)) :
  merge (map PList groups) = concat groups.
Proof. induction groups as [|g rest IH]; simpl; [reflexivity|now rewrite IH]. Qed.

Lemma collect_instances (reservations : list pyval) :
  Forall is_reservation reservations ->
  collect (visit (Field "Instances")) reservations
  = Ok (map PList (map instances_of reservations)).
Proof.
  induction 1 as [|r rest (entries & insts & -> & Hget & _) _ IH];
    [reflexivity|].
  cbn [collect map]. rewrite IH.
  unfold instances_of, field. simpl. rewrite Hget. reflexivity.
Qed.

Lemma visit_summary (inst : pyval) :
  is_record inst ->
  visit
    (MultiSelectDict
       [("id", Field "InstanceId");
        ("state", Subexpression [Field "State"; Field "Name"]);
        ("type", Field "InstanceType");
        ("az", Subexpression [Field "Placement"; Field "AvailabilityZone"])])
    inst
  = Ok (summary inst).
Proof.
  intros [entries ->]. unfold summary, field. simpl.
  destruct (entries_get entries "State") as [[]|];
    destruct (entries_get entries "Placement") as [[]|]; reflexivity.
Qed.

Lemma collect_summaries (insts : list pyval) :
  Forall is_record insts ->
  collect
    (visit
       (MultiSelectDict
          [("id", Field "InstanceId");
           ("state", Subexpression [Field "State"; Field "Name"]);
           ("type", Field "InstanceType");
           ("az", Subexpression [Field "Placement"; Field "AvailabilityZone"])]))
    insts
  = Ok (map summary insts).
Proof.
  induction 1 as [|inst rest Hinst _ IH]; [reflexivity|].
  cbn [collect map]. rewrite (visit_summary inst Hinst), IH. reflexivity.
Qed.

Lemma instances_are_records (reservations : list pyval) :
  Forall is_reservation reservations ->
  Forall is_record (concat (map instances_of reservations)).
Proof.
  induction 1 as [|r rest (entries & insts & -> & Hget & Hrec) _ IH]; simpl.
  - constructor.
  - apply Forall_app. split; [|exact IH].
    unfold instances_of, field. simpl. now rewrite Hget.
Qed.

Lemma flattened_concat (reservations : list pyval) :
  flattened reservations = map summary (concat (map instances_of reservations)).
Proof.
  unfold flattened.
  induction reservations as [|r rest IH]; simpl; [reflexivity|].
  now rewrite map_app, IH.
Qed.

Lemma visit_Flatten_list child (value : pyval) items :
  visit child value = Ok (PList items) ->
  visit (Flatten child) value = Ok (PList (merge items)).
Proof. intros H. simpl. now rewrite H. Qed.

Lemma visit_Projection_list lhs rhs (value : pyval) items collected :
  visit lhs value = Ok (PList items) ->
  collect (visit rhs) items = Ok collected ->
  visit (Projection lhs rhs) value = Ok (PList collected).
Proof.
  intros Hl Hc.
  change (visit (Projection lhs rhs) value)
    with (base ← visit lhs value;
          match base with
          | PList items =>
              collected ← collect (visit rhs) items; Ok (PList collected)
          | _ => Ok PNone
          end).
  rewrite Hl. simpl. now rewrite Hc.
Qed.

Lemma search_well_formed entries reservations :
  entries_get entries "Reservations" = Some (PList reservations) ->
  Forall is_reservation reservations ->
  search expression (PDict entries) = Ok (PList (flattened reservations)).
Proof.
  intros Hget Hres. unfold search, expression.
  rewrite flattened_concat.
  eapply visit_Projection_list;
    [|apply collect_summaries, instances_are_records, Hres].
  rewrite <- merge_lists. apply visit_Flatten_list.
  eapply visit_Projection_list; [|apply collect_instances, Hres].
  rewrite <- (merge_reservations reservations Hres).
  apply visit_Flatten_list.
  cbn [visit visit_field py_get]. now rewrite Hget.
Qed.

Lemma extract_well_formed entries reservations :
  entries_get entries "Reservations" = Some (PList reservations) ->
  Forall is_reservation reservations ->
  _extract_instances_from_response (PDict entries)
  = Ok (PList (flattened reservations)).
Proof.
  intros Hget Hres. unfold _extract_instances_from_response.
  rewrite (search_well_formed _ _ Hget Hres). simpl.
  destruct (flattened reservations); reflexivity.
Qed.

Lemma flattened_summaries (reservations : list pyval) :
  Forall is_summary (flattened reservations).
Proof.
  rewrite flattened_concat. apply Forall_forall. intros x Hx.
  apply list_elem_of_fmap in Hx as (inst & -> & _).
  unfold is_summary, summary. eauto 10.
Qed.

(** C1. On a response whose reservations are records holding sequences of
    instance records, extraction returns the summaries of all instances,
    reservation by reservation and in instance order within each; every
    element has exactly the fields id, state, type and az, taken from the
    instance identifier, the name under its state, the instance type and the
    availability zone under its placement. Two reservations of one instance
    each give the two summaries in that order. *)
Theorem extract_flattens_in_order :
  (forall entries reservations,
      entries_get entries "Reservations" = Some (PList reservations) ->
      Forall is_reservation reservations ->
      _extract_instances_from_response (PDict entries)
      = Ok (PList (flattened reservations)) /\
      Forall is_summary (flattened reservations) /\
      length (flattened reservations)
      = length (concat (map instances_of reservations))) /\
  (forall inst1 inst2,
      is_record inst1 -> is_record inst2 ->
      _extract_instances_from_response
        (PDict [("Reservations",
                  PList [PDict [("Instances", PList [inst1])];
                         PDict [("Instances", PList [inst2])]])])
      = Ok (PList [summary inst1; summary inst2])).
Proof.
  split.
  - intros entries reservations Hget Hres. split; [|split].
    + now apply extract_well_formed.
    + apply flattened_summaries.
    + rewrite flattened_concat. apply length_map.
  - intros inst1 inst2 H1 H2.
    rewrite (extract_well_formed _
               [PDict [("Instances", PList [inst1])];
                PDict [("Instances", PList [inst2])]]).
    + reflexivity.
    + reflexivity.
    + repeat constructor; eexists _, _; (split; [reflexivity|]);
        (split; [reflexivity|]); repeat constructor; assumption.
Qed.

(** ** Credential resolution *)

(** An environment value that is present and non-empty. *)
Lemma truthy_env_spec (v : option string) :
  truthy_env v = true <-> exists s, v = Some s /\ s <> "".
Proof.
  destruct v as [s|]; simpl.
  - destruct (String.eqb_spec s ""); simpl; split.
    + discriminate.
    + intros (s' & [= <-] & Hne). contradiction.
    + eauto.
    + reflexivity.
  - split; [discriminate|]. intros (s & [=] & _).
Qed.

Lemma truthy_env_false (v : option string) :
  truthy_env v = false <-> v = None \/ v = Some "".
Proof.
  destruct v as [s|]; simpl.
  - destruct (String.eqb_spec s ""); simpl; split; auto; try discriminate.
    + now subst; auto.
    + intros [[=]|[= ->]]. contradiction.
  - split; auto.
Qed.

Lemma credentials_missing (environ : gmap string string) :
  (environ !! "AWS_ACCESS_KEY_ID" = None \/
   environ !! "AWS_ACCESS_KEY_ID" = Some "" \/
   environ !! "AWS_SECRET_ACCESS_KEY" = None \/
   environ !! "AWS_SECRET_ACCESS_KEY" = Some "") ->
  exists msg, get_aws_credentials environ = Raise (Exn ValueError msg).
Proof.
  intros H. unfold get_aws_credentials, os_getenv.
  assert (truthy_env (environ !! "AWS_ACCESS_KEY_ID") = false \/
          truthy_env (environ !! "AWS_SECRET_ACCESS_KEY") = false) as [->| ->].
  { rewrite !truthy_env_false. tauto. }
  - simpl. eauto.
  - rewrite orb_true_r. eauto.
Qed.

Ltac solve_lookup :=
  repeat first
    [ rewrite lookup_insert_eq
    | rewrite lookup_insert_ne by discriminate
    | rewrite lookup_empty ];
  reflexivity.

Lemma credentials_present (environ : gmap string string) access secret :
  environ !! "AWS_ACCESS_KEY_ID" = Some access -> access <> "" ->
  environ !! "AWS_SECRET_ACCESS_KEY" = Some secret -> secret <> "" ->
  exists credentials,
    get_aws_credentials environ = Ok credentials /\
    credentials !! "aws_access_key_id" = Some access /\
    credentials !! "aws_secret_access_key" = Some secret /\
    credentials !! "region_name" = Some (get_aws_region environ) /\
    credentials !! "aws_session_token"
    = (if truthy_env (environ !! "AWS_SESSION_TOKEN")
       then environ !! "AWS_SESSION_TOKEN" else None).
Proof.
  intros Ha Hane Hs Hsne. unfold get_aws_credentials, os_getenv.
  rewrite Ha, Hs.
  assert (truthy_env (Some access) = true) as -> by (apply truthy_env_spec; eauto).
  assert (truthy_env (Some secret) = true) as -> by (apply truthy_env_spec; eauto).
  cbn [negb orb default].
  destruct (truthy_env (environ !! "AWS_SESSION_TOKEN")) eqn:Htok.
  - apply truthy_env_spec in Htok as (token & -> & _).
    eexists; split; [reflexivity|].
    split_and!; solve_lookup.
  - eexists; split; [reflexivity|].
    split_and!; solve_lookup.
Qed.

Lemma credentials_ok_inv (environ : gmap string string) credentials :
  get_aws_credentials environ = Ok credentials ->
  exists access secret,
    environ !! "AWS_ACCESS_KEY_ID" = Some access /\ access <> "" /\
    environ !! "AWS_SECRET_ACCESS_KEY" = Some secret /\ secret <> "".
Proof.
  unfold get_aws_credentials, os_getenv.
  destruct (truthy_env (environ !! "AWS_ACCESS_KEY_ID")) eqn:Ha;
    [|discriminate].
  destruct (truthy_env (environ !! "AWS_SECRET_ACCESS_KEY")) eqn:Hs;
    [|discriminate].
  apply truthy_env_spec in Ha as (access & Ha & Hane).
  apply truthy_env_spec in Hs as (secret & Hs & Hsne).
  eauto 10.
Qed.

(** C3. When the access key or the secret key is absent or empty, resolution
    fails with the missing-credentials error ([ValueError]); when both are
    present and non-empty it returns a bundle holding both, whose region is
    the environment's region value when that is set and us-east-1 when it is
    absent. *)
Theorem resolve_fails_or_defaults_region :
  forall environ : gmap string string,
    ((environ !! "AWS_ACCESS_KEY_ID" = None \/
      environ !! "AWS_ACCESS_KEY_ID" = Some "" \/
      environ !! "AWS_SECRET_ACCESS_KEY" = None \/
      environ !! "AWS_SECRET_ACCESS_KEY" = Some "") ->
     exists msg, get_aws_credentials environ = Raise (Exn ValueError msg)) /\
    (forall access secret,
        environ !! "AWS_ACCESS_KEY_ID" = Some access -> access <> "" ->
        environ !! "AWS_SECRET_ACCESS_KEY" = Some secret -> secret <> "" ->
        exists credentials,
          get_aws_credentials environ = Ok credentials /\
          credentials !! "aws_access_key_id" = Some access /\
          credentials !! "aws_secret_access_key" = Some secret /\
          (forall region, environ !! "AWS_DEFAULT_REGION" = Some region ->
                          credentials !! "region_name" = Some region) /\
          (environ !! "AWS_DEFAULT_REGION" = None ->
           credentials !! "region_name" = Some "us-east-1")).
Proof.
  intros environ. split; [apply credentials_missing|].
  intros access secret Ha Hane Hs Hsne.
  destruct (credentials_present environ access secret Ha Hane Hs Hsne)
    as (credentials & Hok & Hak & Hsk & Hregion & _).
  exists credentials. repeat split; try assumption.
  - intros region Hr. rewrite Hregion. unfold get_aws_region, os_getenv.
    now rewrite Hr.
  - intros Hr. rewrite Hregion. unfold get_aws_region, os_getenv.
    now rewrite Hr.
Qed.

(** What the bundle holds under its session-token key: the environment's
    token when that is present and non-empty, nothing otherwise. *)
Lemma session_token_entry (environ : gmap string string) credentials :
  get_aws_credentials environ = Ok credentials ->
  credentials !! "aws_session_token"
  = if truthy_env (environ !! "AWS_SESSION_TOKEN")
    then environ !! "AWS_SESSION_TOKEN" else None.
Proof.
  intros Hok.
  destruct (credentials_ok_inv environ credentials Hok)
    as (access & secret & Ha & Hane & Hs & Hsne).
  destruct (credentials_present environ access secret Ha Hane Hs Hsne)
    as (credentials' & Hok' & _ & _ & _ & Ht).
  congruence.
Qed.

(** C4. Resolution succeeds whenever the access key and the secret key are
    present and non-empty, and the bundle it returns carries the
    environment's session token, under the session-token key, when that
    token is present and non-empty, and has no session-token key at all when
    the token is absent or empty. Conversely every bundle that resolution
    returns has a session-token entry exactly when the environment's token is
    present and non-empty. *)
Theorem session_token_iff_present :
  forall environ : gmap string string,
    (forall access secret,
        environ !! "AWS_ACCESS_KEY_ID" = Some access -> access <> "" ->
        environ !! "AWS_SECRET_ACCESS_KEY" = Some secret -> secret <> "" ->
        exists credentials,
          get_aws_credentials environ = Ok credentials /\
          (forall token,
              environ !! "AWS_SESSION_TOKEN" = Some token -> token <> "" ->
              credentials !! "aws_session_token" = Some token /\
              "aws_session_token" ∈ dom credentials) /\
          (environ !! "AWS_SESSION_TOKEN" = None \/
           environ !! "AWS_SESSION_TOKEN" = Some "" ->
           credentials !! "aws_session_token" = None /\
           "aws_session_token" ∉ dom credentials)) /\
    (forall credentials,
        get_aws_credentials environ = Ok credentials ->
        (is_Some (credentials !! "aws_session_token") <->
         exists token,
           environ !! "AWS_SESSION_TOKEN" = Some token /\ token <> "") /\
        (forall token,
            environ !! "AWS_SESSION_TOKEN" = Some token -> token <> "" ->
            credentials !! "aws_session_token" = Some token) /\
        (environ !! "AWS_SESSION_TOKEN" = None \/
         environ !! "AWS_SESSION_TOKEN" = Some "" ->
         credentials !! "aws_session_token" = None /\
         "aws_session_token" ∉ dom credentials)).
Proof.
  intros environ.
  assert (forall credentials,
             get_aws_credentials environ = Ok credentials ->
             (forall token,
                 environ !! "AWS_SESSION_TOKEN" = Some token -> token <> "" ->
                 credentials !! "aws_session_token" = Some token) /\
             (environ !! "AWS_SESSION_TOKEN" = None \/
              environ !! "AWS_SESSION_TOKEN" = Some "" ->
              credentials !! "aws_session_token" = None /\
              "aws_session_token" ∉ dom credentials)) as Hentry.
  { intros credentials Hok.
    pose proof (session_token_entry environ credentials Hok) as Htok.
    split.
    - intros token Ht Hne. rewrite Htok.
      assert (truthy_env (environ !! "AWS_SESSION_TOKEN") = true) as ->
          by (apply truthy_env_spec; eauto).
      exact Ht.
    - intros Habs.
      assert (truthy_env (environ !! "AWS_SESSION_TOKEN") = false) as Hf
          by (now apply truthy_env_false).
      rewrite elem_of_dom, Htok, Hf. split; [reflexivity|]. intros [x [=]]. }
  split.
  - intros access secret Ha Hane Hs Hsne.
    destruct (credentials_present environ access secret Ha Hane Hs Hsne)
      as (credentials & Hok & _).
    exists credentials. split; [exact Hok|].
    destruct (Hentry credentials Hok) as [Hsome Hnone].
    split; [|exact Hnone].
    intros token Ht Hne. split; [now apply Hsome|].
    rewrite elem_of_dom, (Hsome token Ht Hne). eauto.
  - intros credentials Hok.
    destruct (Hentry credentials Hok) as [Hsome Hnone].
    split; [|split; assumption].
    rewrite (session_token_entry environ credentials Hok).
    rewrite <- truthy_env_spec.
    destruct (truthy_env (environ !! "AWS_SESSION_TOKEN")) eqn:Ht.
    + apply truthy_env_spec in Ht as (token & -> & _). split; eauto.
    + split; [intros [x [=]]|discriminate].
Qed.

(** Brings the worlds of a goal to a normal form: projections computed,
    output appended to the right. *)
Ltac norm_world :=
  repeat first
    [ progress cbn [stdin stdout calls fst snd]
    | rewrite <- app_assoc ];
  cbn [app].

(** ** Prompting *)

(** Unfolds the monad and its primitives down to functions on worlds. *)
Ltac unfold_M :=
  unfold mbind, mret, M_mbind, M_mret, M_bind, M_ret, print, input,
    read_event, invoke, lift, raise, try_except, emit, set_stdin in *;
  cbn [stdin stdout calls fst snd] in *.

(** [prompt_loop] is the loop of the source: read a line, strip it, return it
    when it is non-empty, otherwise complain and go round again. *)
Lemma _prompt_non_empty_unfold (prompt_text : string) (w : world) :
  _prompt_non_empty prompt_text w
  = (text ← input prompt_text;
     let value := strip text in
     if negb (String.eqb value "") then mret value
     else print required_message;; _prompt_non_empty prompt_text) w.
Proof.
  destruct w as [ins out cs]. unfold _prompt_non_empty.
  destruct ins as [|[text|] rest]; unfold_M; try reflexivity.
  cbn [prompt_loop]. unfold_M.
  destruct (String.eqb (strip text) ""); reflexivity.
Qed.


(** Whatever the input holds, prompting makes no remote call, only adds to
    the output, returns a non-empty text or raises one of the two input
    exceptions. *)
Lemma prompt_outcome (prompt_text : string) (w : world) :
  calls (_prompt_non_empty prompt_text w).2 = calls w /\
  (exists added, stdout (_prompt_non_empty prompt_text w).2 = stdout w ++ added) /\
  match (_prompt_non_empty prompt_text w).1 with
  | Ok value => value <> ""
  | Raise e => exn_cls e = EOFError \/ exn_cls e = KeyboardInterrupt
  end.
Proof.
  destruct w as [ins out cs]. unfold _prompt_non_empty. cbn [stdin].
  revert out.
  induction ins as [|[text|] rest IH]; intros out; cbn [prompt_loop]; unfold_M.
  - split_and!; cbn; eauto.
  - destruct (String.eqb_spec (strip text) ""); cbn [negb].
    + destruct (IH ((out ++ [Prompted prompt_text]) ++ [Printed required_message]))
        as (Hc & [added Ha] & Hr).
      split_and!; [exact Hc | | exact Hr].
      rewrite Ha, <- !app_assoc. eauto.
    + split_and!; cbn; eauto.
  - split_and!; cbn; eauto.
Qed.

(** ** Computations that make no remote call *)

Lemma quiet_ret {A} (a : A) : quiet (mret a).
Proof. intros w. reflexivity. Qed.

Lemma quiet_print text : quiet (print text).
Proof. intros w. reflexivity. Qed.

Lemma quiet_lift {A} (r : result A) : quiet (lift r).
Proof. intros w. reflexivity. Qed.

Lemma quiet_raise {A} e : quiet (@raise A e).
Proof. intros w. reflexivity. Qed.

Lemma quiet_input prompt_text : quiet (input prompt_text).
Proof. intros [ins out cs]. unfold_M. destruct ins as [|[]]; reflexivity. Qed.

Lemma quiet_prompt prompt_text : quiet (_prompt_non_empty prompt_text).
Proof. intros w. apply prompt_outcome. Qed.

Lemma quiet_bind {A B} (m : M A) (k : A -> M B) :
  quiet m -> (forall a, quiet (k a)) -> quiet (m ≫= k).
Proof.
  intros Hm Hk w. unfold mbind, M_mbind, M_bind.
  specialize (Hm w). destruct (m w) as [[a|e] w']; cbn in *.
  - now rewrite Hk.
  - exact Hm.
Qed.

Lemma quiet_try {A} (body : M A) handler :
  quiet body ->
  (forall e clause, handler e = Some clause -> quiet clause) ->
  quiet (try_except body handler).
Proof.
  intros Hb Hh w. unfold try_except.
  specialize (Hb w). destruct (body w) as [[a|e] w']; cbn in *; [exact Hb|].
  destruct (handler e) as [clause|] eqn:He; cbn; [|exact Hb].
  now rewrite (Hh e clause He).
Qed.

Lemma quiet_if {A} (b : bool) (m1 m2 : M A) :
  quiet m1 -> quiet m2 -> quiet (if b then m1 else m2).
Proof. now destruct b. Qed.

Lemma quiet_print_rows rows : quiet (print_rows rows).
Proof.
  induction rows as [|inst rest IH]; cbn [print_rows].
  - apply quiet_ret.
  - apply quiet_bind; [apply quiet_lift|]. intros row.
    apply quiet_bind; [apply quiet_print|]. intros _. exact IH.
Qed.

Create HintDb quiet.
#[local] Hint Resolve quiet_ret quiet_print quiet_lift quiet_raise quiet_input
  quiet_prompt quiet_print_rows quiet_if : quiet.

(** Proves [quiet] for straight-line code built from the monad's
    primitives. *)
Ltac solve_quiet :=
  repeat first
    [ apply quiet_bind; [|intros ?]
    | apply quiet_if
    | solve [auto with quiet] ].

(** A handler clause that only prints. *)
Ltac solve_clause :=
  let e := fresh "e" in
  let clause := fresh "clause" in
  let H := fresh "H" in
  intros e clause H; cbv beta in H;
  destruct (exn_cls e); inversion H; subst; solve_quiet.

(** ** Listing *)

(** The [Filters] argument [list_instances] passes for a state filter. *)
Lemma list_instances_calls ec2_client state_filter (w : world) :
  calls (list_instances ec2_client state_filter w).2
  = calls w ++
      [DescribeInstances
         (if truthy_env state_filter
          then Some [Filter "instance-state-name" [default "" state_filter]]
          else None)].
Proof.
  unfold list_instances.
  set (handler := fun exc : exn => _).
  assert (forall e clause, handler e = Some clause -> quiet clause) as Hh
      by (subst handler; solve_clause).
  unfold try_except.
  match goal with |- context [@mbind M _ _ _ ?k ?m] =>
    set (rest := k); set (call := m)
  end.
  assert (forall a, quiet (rest a)) as Hrest.
  { intros response. subst rest. cbv beta. solve_quiet. }
  assert (calls (call w).2
          = calls w ++
              [DescribeInstances
                 (if truthy_env state_filter
                  then Some [Filter "instance-state-name"
                               [default "" state_filter]]
                  else None)]) as Hcall.
  { subst call. destruct (truthy_env state_filter); reflexivity. }
  unfold mbind, M_mbind, M_bind.
  destruct (call w) as [[response|e] w'] eqn:Hw; cbn in Hcall.
  - specialize (Hrest response w').
    destruct (rest response w') as [[u|e] w''] eqn:Hw'; cbn in *.
    + congruence.
    + destruct (handler e) as [clause|] eqn:He; cbn; [|congruence].
      rewrite (Hh e clause He). congruence.
  - destruct (handler e) as [clause|] eqn:He; cbn; [|congruence].
    rewrite (Hh e clause He). congruence.
Qed.

(** ** The state-filter entry point *)

Lemma str_in_spec (x : string) (xs : list string) :
  str_in x xs = true <-> In x xs.
Proof.
  unfold str_in. rewrite existsb_exists. split.
  - intros (y & Hy & Heq). apply String.eqb_eq in Heq. now subst.
  - intros Hin. exists x. split; [exact Hin|apply String.eqb_refl].
Qed.

(** C10. An entry that is empty once stripped makes the state-filter handler
    print its error and return at once: the call log is unchanged, and
    nothing is listed. *)
Theorem empty_filter_makes_no_call :
  forall (ec2_client : remote) (entered : string) (rest : list input_event)
         (out : list output) (cs : list api_call),
    strip entered = "" ->
    handle_filter_by_state ec2_client (World (Line entered :: rest) out cs)
    = (Ok tt,
       World rest
         (out ++ filter_heading ++ [Printed "Error: State cannot be empty."])
         cs).
Proof.
  intros ec2_client entered rest out cs Hempty.
  unfold handle_filter_by_state. unfold_M.
  rewrite Hempty. cbn [lower String.eqb].
  unfold filter_heading. norm_world. reflexivity.
Qed.




(** ** Termination *)







(** ** Remote failures at the handler boundary *)

Lemma contains_ret {A} (a : A) : contains_client_errors (mret a).
Proof. intros w e [=]. Qed.

Lemma contains_print text : contains_client_errors (print text).
Proof. intros w e [=]. Qed.

Lemma contains_input prompt_text : contains_client_errors (input prompt_text).
Proof.
  intros [ins out cs] e. unfold_M.
  destruct ins as [|[]]; cbn; intros [= <-]; discriminate.
Qed.

Lemma contains_prompt prompt_text :
  contains_client_errors (_prompt_non_empty prompt_text).
Proof.
  intros w e He. destruct (prompt_outcome prompt_text w) as (_ & _ & Hr).
  rewrite He in Hr. destruct Hr as [-> | ->]; discriminate.
Qed.

Lemma contains_bind {A B} (m : M A) (k : A -> M B) :
  contains_client_errors m -> (forall a, contains_client_errors (k a)) ->
  contains_client_errors (m ≫= k).
Proof.
  intros Hm Hk w e. unfold mbind, M_mbind, M_bind.
  specialize (Hm w). destruct (m w) as [[a|e'] w']; cbn in *.
  - apply Hk.
  - intros [= <-]. now apply Hm.
Qed.

Lemma contains_if {A} (b : bool) (m1 m2 : M A) :
  contains_client_errors m1 -> contains_client_errors m2 ->
  contains_client_errors (if b then m1 else m2).
Proof. now destruct b. Qed.

(** A [try] with a clause for [ClientError] lets none escape, whatever its
    body does, as long as its clauses raise none themselves. *)
Lemma contains_try {A} (body : M A) handler :
  (forall e, exn_cls e = ClientError -> is_Some (handler e)) ->
  (forall e clause, handler e = Some clause -> contains_client_errors clause) ->
  contains_client_errors (try_except body handler).
Proof.
  intros Hcatch Hclause w e. unfold try_except.
  destruct (body w) as [[a|e'] w']; cbn; [discriminate|].
  destruct (handler e') as [clause|] eqn:He'.
  - apply (Hclause e' clause He').
  - cbn. intros [= <-] Hcls. destruct (Hcatch e' Hcls) as [x Hx]. congruence.
Qed.

Create HintDb contains.
#[local] Hint Resolve contains_ret contains_print contains_input
  contains_prompt contains_if : contains.

Ltac solve_contains :=
  repeat first
    [ apply contains_bind; [|intros ?]
    | apply contains_if
    | solve [auto with contains]
    | apply contains_try;
      [ let e := fresh "e" in let H := fresh "H" in
        intros e H; cbv beta; rewrite H; eauto
      | let e := fresh "e" in let clause := fresh "clause" in
        let H := fresh "H" in
        intros e clause H; cbv beta in H;
        destruct (exn_cls e); inversion H; subst ] ].

Lemma handlers_contain_client_errors (c : command) (ec2_client : remote) :
  contains_client_errors (handler c ec2_client).
Proof.
  destruct c; cbn [handler];
    [ unfold list_instances | unfold create_instance | unfold stop_instance
    | unfold start_instance | unfold reboot_instance
    | unfold terminate_instance ];
    solve_contains.
Qed.

(** A guarded remote call is logged once, whatever it returns. *)
Lemma guarded_call_logged {A} (ec2_client : remote) (call : api_call)
  (after : pyval -> M A) handler (w : world) :
  (forall response, quiet (after response)) ->
  (forall e clause, handler e = Some clause -> quiet clause) ->
  calls (try_except (invoke ec2_client call ≫= after) handler w).2
  = calls w ++ [call].
Proof.
  intros Hafter Hclause. unfold try_except, mbind, M_mbind, M_bind, invoke.
  destruct (ec2_client (calls w) call) as [response|e].
  - specialize (Hafter response
                  (World (stdin w) (stdout w) (calls w ++ [call]))).
    destruct (after response _) as [[a|e] w'']; cbn in *; [exact Hafter|].
    destruct (handler e) as [clause|] eqn:He; cbn; [|exact Hafter].
    now rewrite (Hclause e clause He).
  - destruct (handler e) as [clause|] eqn:He; cbn; [|reflexivity].
    now rewrite (Hclause e clause He).
Qed.

(** When the guarded call raises a [ClientError], the clause of the handler
    runs: three lines are printed and the block ends normally. *)
Lemma guarded_call_fails (ec2_client : remote) (call : api_call)
  (after : pyval -> M unit) (headline closing : string) (w : world) (e : exn) :
  ec2_client (calls w) call = Raise e -> exn_cls e = ClientError ->
  try_except (invoke ec2_client call ≫= after)
    (fun exc =>
       match exn_cls exc with
       | ClientError =>
           Some (print headline;;
                 print ("Details: " +:+ exn_str exc);;
                 print closing)
       | _ => None
       end) w
  = (Ok tt,
     World (stdin w)
       (stdout w ++ [Printed headline; Printed ("Details: " +:+ exn_str e);
                     Printed closing])
       (calls w ++ [call])).
Proof.
  intros Hcall Hcls. unfold_M. rewrite Hcall, Hcls. norm_world. reflexivity.
Qed.

Lemma str_app_assoc (a b c : string) : (a +:+ b) +:+ c = a +:+ b +:+ c.
Proof.
  induction a as [|x a IH]; [reflexivity|].
  change (String x ((a +:+ b) +:+ c) = String x (a +:+ b +:+ c)).
  now rewrite IH.
Qed.

Lemma app_tail_inj {A} (l : list A) (x y : A) : l ++ [x] = l ++ [y] -> x = y.
Proof. intros H. apply app_inv_head in H. now injection H. Qed.

Lemma app_tail_fresh {A} (l : list A) (x : A) : l <> l ++ [x].
Proof.
  intros H. apply (f_equal length) in H. rewrite length_app in H.
  cbn in H. lia.
Qed.

Lemma list_reports_failure ec2_client state_filter (w : world) call e :
  calls (list_instances ec2_client state_filter w).2 = calls w ++ [call] ->
  ec2_client (calls w) call = Raise e -> exn_cls e = ClientError ->
  reports_failure (CmdList state_filter) e
    (list_instances ec2_client state_filter w) w.
Proof.
  intros Hlog Hcall Hcls.
  rewrite list_instances_calls in Hlog. apply app_tail_inj in Hlog.
  subst call. unfold list_instances. unfold_M.
  destruct (truthy_env state_filter); cbn [default] in *;
    rewrite Hcall, Hcls; (split; [reflexivity|]);
    exists (nl +:+ "Error: Failed to list instances."),
      [Printed (nl +:+ "Error: Failed to list instances.");
       Printed ("Details: " +:+ exn_str e)];
    norm_world;
    (split_and!;
     [ reflexivity | set_solver
     | exists (nl +:+ "Error: "), " instances."; reflexivity
     | set_solver ]).
Qed.

(** The same for a handler that first asks for an identifier: [m] is the
    handler's guarded block, [prefix] what it writes before the prompt. *)
Lemma by_id_reports_failure (c : command) (ec2_client : remote)
  (prefix : list output) (prompt_text : string)
  (make_call : list string -> api_call) (success failure : string)
  (w : world) call e :
  occurs_in ("Failed to " +:+ operation_name c) failure ->
  let run :=
    (instance_id ← _prompt_non_empty prompt_text;
     try_except
       (invoke ec2_client (make_call [instance_id]);;
        print (nl +:+ success +:+ instance_id);;
        print (rule 70))
       (fun exc =>
          match exn_cls exc with
          | ClientError =>
              Some (print (nl +:+ failure +:+ instance_id);;
                    print ("Details: " +:+ exn_str exc);;
                    print (rule 70))
          | _ => None
          end))
      (World (stdin w) (stdout w ++ prefix) (calls w)) in
  calls run.2 = calls w ++ [call] ->
  ec2_client (calls w) call = Raise e -> exn_cls e = ClientError ->
  reports_failure c e run w.
Proof.
  intros (before & after & Hocc) run Hlog Hcall Hcls. subst run.
  unfold mbind at 1, M_mbind, M_bind at 1 in Hlog.
  unfold mbind at 1, M_mbind, M_bind at 1.
  set (w1 := World (stdin w) (stdout w ++ prefix) (calls w)) in *.
  destruct (prompt_outcome prompt_text w1) as (Hc & [asked Hasked] & _).
  destruct (_prompt_non_empty prompt_text w1) as [[instance_id|e'] w2];
    cbn [fst snd] in *.
  - rewrite guarded_call_logged in Hlog; [|intros; solve_quiet|solve_clause].
    rewrite Hc in Hlog. cbn [calls w1] in Hlog. apply app_tail_inj in Hlog.
    subst call.
    rewrite (guarded_call_fails _ _ _ _ _ _ e);
      [|rewrite Hc; exact Hcall|exact Hcls].
    split; [reflexivity|].
    exists (nl +:+ failure +:+ instance_id), (prefix ++ asked ++
      [Printed (nl +:+ failure +:+ instance_id);
       Printed ("Details: " +:+ exn_str e); Printed (rule 70)]).
    cbn [snd stdout]. rewrite Hasked. cbn [stdout w1].
    split_and!.
    + now rewrite <- !app_assoc.
    + set_solver.
    + exists (nl +:+ before), (after +:+ instance_id). rewrite Hocc.
      now rewrite !str_app_assoc.
    + set_solver.
  - rewrite Hc in Hlog. cbn [calls w1] in Hlog.
    now apply app_tail_fresh in Hlog.
Qed.

(** The guarded block of a handler, started in [w2] after the handler has
    only written to the output of [w0]. *)
Lemma block_reports_failure (c : command) (ec2_client : remote)
  (call0 : api_call) (after : pyval -> M unit) (headline closing : string)
  (w0 w2 : world) (asked : list output) call e :
  calls w2 = calls w0 -> stdout w2 = stdout w0 ++ asked ->
  occurs_in ("Failed to " +:+ operation_name c) headline ->
  (forall response, quiet (after response)) ->
  let r :=
    try_except (invoke ec2_client call0 ≫= after)
      (fun exc =>
         match exn_cls exc with
         | ClientError =>
             Some (print headline;;
                   print ("Details: " +:+ exn_str exc);;
                   print closing)
         | _ => None
         end) w2 in
  calls r.2 = calls w0 ++ [call] ->
  ec2_client (calls w0) call = Raise e -> exn_cls e = ClientError ->
  reports_failure c e r w0.
Proof.
  intros Hc Hasked Hocc Hafter r Hlog Hcall Hcls. subst r.
  rewrite guarded_call_logged in Hlog; [|exact Hafter|solve_clause].
  rewrite Hc in Hlog. apply app_tail_inj in Hlog. subst call0.
  rewrite (guarded_call_fails _ _ _ _ _ _ e);
    [|rewrite Hc; exact Hcall|exact Hcls].
  split; [reflexivity|].
  exists headline,
    (asked ++ [Printed headline; Printed ("Details: " +:+ exn_str e);
               Printed closing]).
  cbn [snd stdout]. rewrite Hasked.
  split_and!; [now rewrite <- !app_assoc|set_solver|exact Hocc|set_solver].
Qed.

(** Splits on the outcome of the prompt at the head of the goal's handler:
    [Hc] and [Hasked] relate the world after it to the world before. *)
Ltac step_prompt Hc asked Hasked :=
  match goal with
  | |- context [_prompt_non_empty ?p ?w1] =>
      destruct (prompt_outcome p w1) as (Hc & [asked Hasked] & _);
      destruct (_prompt_non_empty p w1) as [[?instance_id|?e'] ?w2];
      cbn [fst snd stdin stdout calls] in *
  end.

Lemma stop_like_reports_failure (c : command) (ec2_client : remote)
  (title prompt_text : string) (make_call : list string -> api_call)
  (success failure : string) (w : world) call e :
  occurs_in ("Failed to " +:+ operation_name c) failure ->
  forall r,
  r =
    (print (nl +:+ rule 70);;
     print title;;
     print (rule 70);;
     instance_id ← _prompt_non_empty prompt_text;
     try_except
       (invoke ec2_client (make_call [instance_id]);;
        print (nl +:+ success +:+ instance_id);;
        print (rule 70))
       (fun exc =>
          match exn_cls exc with
          | ClientError =>
              Some (print (nl +:+ failure +:+ instance_id);;
                    print ("Details: " +:+ exn_str exc);;
                    print (rule 70))
          | _ => None
          end)) w ->
  calls r.2 = calls w ++ [call] ->
  ec2_client (calls w) call = Raise e -> exn_cls e = ClientError ->
  reports_failure c e r w.
Proof.
  intros (before & after & Hocc) r.
  unfold mbind at 1 2 3 4, M_mbind, M_bind at 1 2 3 4.
  unfold print at 1 2 3, emit. cbn [stdin stdout calls].
  step_prompt Hc asked Hasked; intros -> Hlog Hcall Hcls.
  - eapply block_reports_failure; eauto.
    + rewrite Hasked, <- !app_assoc. reflexivity.
    + exists (nl +:+ before), (after +:+ instance_id). rewrite Hocc.
      now rewrite !str_app_assoc.
    + intros response. solve_quiet.
  - cbn [snd] in Hlog. rewrite Hc in Hlog. now apply app_tail_fresh in Hlog.
Qed.

Lemma create_reports_failure (ec2_client : remote) (w : world) call e r :
  r = create_instance ec2_client w ->
  calls r.2 = calls w ++ [call] ->
  ec2_client (calls w) call = Raise e -> exn_cls e = ClientError ->
  reports_failure CmdCreate e r w.
Proof.
  unfold create_instance.
  unfold mbind at 1 2 3 4 5 6 7, M_mbind, M_bind at 1 2 3 4 5 6 7.
  unfold print at 1 2 3 4 5, emit. cbn [stdin stdout calls].
  step_prompt Hc1 asked1 Hasked1.
  - step_prompt Hc2 asked2 Hasked2; intros -> Hlog Hcall Hcls.
    + eapply block_reports_failure; eauto.
      * congruence.
      * rewrite Hasked2, Hasked1, <- !app_assoc. reflexivity.
      * exists (nl +:+ "Error: "), " instance.". reflexivity.
      * intros response. solve_quiet.
    + cbn [snd] in Hlog. rewrite Hc2, Hc1 in Hlog.
      now apply app_tail_fresh in Hlog.
  - intros -> Hlog. cbn [snd] in Hlog. rewrite Hc1 in Hlog.
    now apply app_tail_fresh in Hlog.
Qed.

Lemma terminate_reports_failure (ec2_client : remote) (w : world) call e r :
  r = terminate_instance ec2_client w ->
  calls r.2 = calls w ++ [call] ->
  ec2_client (calls w) call = Raise e -> exn_cls e = ClientError ->
  reports_failure CmdTerminate e r w.
Proof.
  unfold terminate_instance.
  unfold mbind at 1 2 3 4 5 6, M_mbind, M_bind at 1 2 3 4 5 6.
  unfold print at 1 2 3 4, emit. cbn [stdin stdout calls].
  step_prompt Hc asked Hasked.
  - unfold input, read_event, emit, set_stdin. cbn [stdin stdout calls].
    destruct (stdin w2) as [|[answer|] pending]; cbn [fst snd calls].
    + intros -> Hlog. cbn [snd calls] in Hlog. rewrite Hc in Hlog.
      now apply app_tail_fresh in Hlog.
    + destruct (negb (String.eqb (lower (strip answer)) "yes")).
      * unfold_M. intros -> Hlog. cbn [snd calls] in Hlog.
        rewrite Hc in Hlog. now apply app_tail_fresh in Hlog.
      * intros -> Hlog Hcall Hcls.
        eapply block_reports_failure; eauto.
        -- cbn [stdout]. rewrite Hasked, <- !app_assoc. reflexivity.
        -- exists (nl +:+ "Error: "), (" instance " +:+ instance_id).
           reflexivity.
        -- intros response. solve_quiet.
    + intros -> Hlog. cbn [snd calls] in Hlog. rewrite Hc in Hlog.
      now apply app_tail_fresh in Hlog.
  - intros -> Hlog. cbn [snd calls] in Hlog. rewrite Hc in Hlog.
    now apply app_tail_fresh in Hlog.
Qed.

(** When the guarded call raises an exception that is no [ClientError], no
    clause of the handler runs: the exception leaves the block, with the
    call logged and nothing printed. *)
Lemma guarded_call_escapes (ec2_client : remote) (call : api_call)
  (after : pyval -> M unit) (headline closing : string) (w : world) (e : exn) :
  ec2_client (calls w) call = Raise e -> exn_cls e <> ClientError ->
  try_except (invoke ec2_client call ≫= after)
    (fun exc =>
       match exn_cls exc with
       | ClientError =>
           Some (print headline;;
                 print ("Details: " +:+ exn_str exc);;
                 print closing)
       | _ => None
       end) w
  = (Raise e, World (stdin w) (stdout w) (calls w ++ [call])).
Proof.
  intros Hcall Hcls. unfold_M. rewrite Hcall.
  destruct (exn_cls e); try reflexivity. contradiction.
Qed.

Lemma block_lets_through (ec2_client : remote)
  (call0 : api_call) (after : pyval -> M unit) (headline closing : string)
  (w0 w2 : world) call e :
  calls w2 = calls w0 ->
  (forall response, quiet (after response)) ->
  let r :=
    try_except (invoke ec2_client call0 ≫= after)
      (fun exc =>
         match exn_cls exc with
         | ClientError =>
             Some (print headline;;
                   print ("Details: " +:+ exn_str exc);;
                   print closing)
         | _ => None
         end) w2 in
  calls r.2 = calls w0 ++ [call] ->
  ec2_client (calls w0) call = Raise e -> exn_cls e <> ClientError ->
  r.1 = Raise e.
Proof.
  intros Hc Hafter r Hlog Hcall Hcls. subst r.
  rewrite guarded_call_logged in Hlog; [|exact Hafter|solve_clause].
  rewrite Hc in Hlog. apply app_tail_inj in Hlog. subst call0.
  rewrite (guarded_call_escapes _ _ _ _ _ _ e);
    [reflexivity|rewrite Hc; exact Hcall|exact Hcls].
Qed.

Lemma list_lets_through ec2_client state_filter (w : world) call e :
  calls (list_instances ec2_client state_filter w).2 = calls w ++ [call] ->
  ec2_client (calls w) call = Raise e -> exn_cls e <> ClientError ->
  (list_instances ec2_client state_filter w).1 = Raise e.
Proof.
  intros Hlog Hcall Hcls.
  rewrite list_instances_calls in Hlog. apply app_tail_inj in Hlog.
  subst call. unfold list_instances. unfold_M.
  destruct (truthy_env state_filter); cbn [default] in *;
    rewrite Hcall; destruct (exn_cls e); try reflexivity; contradiction.
Qed.

Lemma stop_like_lets_through (ec2_client : remote)
  (title prompt_text : string) (make_call : list string -> api_call)
  (success failure : string) (w : world) call e :
  forall r,
  r =
    (print (nl +:+ rule 70);;
     print title;;
     print (rule 70);;
     instance_id ← _prompt_non_empty prompt_text;
     try_except
       (invoke ec2_client (make_call [instance_id]);;
        print (nl +:+ success +:+ instance_id);;
        print (rule 70))
       (fun exc =>
          match exn_cls exc with
          | ClientError =>
              Some (print (nl +:+ failure +:+ instance_id);;
                    print ("Details: " +:+ exn_str exc);;
                    print (rule 70))
          | _ => None
          end)) w ->
  calls r.2 = calls w ++ [call] ->
  ec2_client (calls w) call = Raise e -> exn_cls e <> ClientError ->
  r.1 = Raise e.
Proof.
  intros r.
  unfold mbind at 1 2 3 4, M_mbind, M_bind at 1 2 3 4.
  unfold print at 1 2 3, emit. cbn [stdin stdout calls].
  step_prompt Hc asked Hasked; intros -> Hlog Hcall Hcls.
  - eapply (block_lets_through _ _ _ _ _ w _ call e); eauto.
    intros response. solve_quiet.
  - cbn [snd] in Hlog. rewrite Hc in Hlog. now apply app_tail_fresh in Hlog.
Qed.

Lemma create_lets_through (ec2_client : remote) (w : world) call e r :
  r = create_instance ec2_client w ->
  calls r.2 = calls w ++ [call] ->
  ec2_client (calls w) call = Raise e -> exn_cls e <> ClientError ->
  r.1 = Raise e.
Proof.
  unfold create_instance.
  unfold mbind at 1 2 3 4 5 6 7, M_mbind, M_bind at 1 2 3 4 5 6 7.
  unfold print at 1 2 3 4 5, emit. cbn [stdin stdout calls].
  step_prompt Hc1 asked1 Hasked1.
  - step_prompt Hc2 asked2 Hasked2; intros -> Hlog Hcall Hcls.
    + eapply (block_lets_through _ _ _ _ _ w _ call e); eauto.
      * congruence.
      * intros response. solve_quiet.
    + cbn [snd] in Hlog. rewrite Hc2, Hc1 in Hlog.
      now apply app_tail_fresh in Hlog.
  - intros -> Hlog. cbn [snd] in Hlog. rewrite Hc1 in Hlog.
    now apply app_tail_fresh in Hlog.
Qed.

Lemma terminate_lets_through (ec2_client : remote) (w : world) call e r :
  r = terminate_instance ec2_client w ->
  calls r.2 = calls w ++ [call] ->
  ec2_client (calls w) call = Raise e -> exn_cls e <> ClientError ->
  r.1 = Raise e.
Proof.
  unfold terminate_instance.
  unfold mbind at 1 2 3 4 5 6, M_mbind, M_bind at 1 2 3 4 5 6.
  unfold print at 1 2 3 4, emit. cbn [stdin stdout calls].
  step_prompt Hc asked Hasked.
  - unfold input, read_event, emit, set_stdin. cbn [stdin stdout calls].
    destruct (stdin w2) as [|[answer|] pending]; cbn [fst snd calls].
    + intros -> Hlog. cbn [snd calls] in Hlog. rewrite Hc in Hlog.
      now apply app_tail_fresh in Hlog.
    + destruct (negb (String.eqb (lower (strip answer)) "yes")).
      * unfold_M. intros -> Hlog. cbn [snd calls] in Hlog.
        rewrite Hc in Hlog. now apply app_tail_fresh in Hlog.
      * intros -> Hlog Hcall Hcls.
        eapply (block_lets_through _ _ _ _ _ w _ call e); eauto.
        intros response. solve_quiet.
    + intros -> Hlog. cbn [snd calls] in Hlog. rewrite Hc in Hlog.
      now apply app_tail_fresh in Hlog.
  - intros -> Hlog. cbn [snd calls] in Hlog. rewrite Hc in Hlog.
    now apply app_tail_fresh in Hlog.
Qed.

(** C6 (amended). For each of the six handlers: no [ClientError] ever
    escapes it; when its remote call fails with a [ClientError], the handler
    ends normally after printing a line that names the failed operation and
    a line that carries the error's text; and when its remote call fails
    with an exception of any other class, that exception is not caught: it
    leaves the handler. *)
Theorem client_errors_caught_and_reported :
  forall (c : command) (ec2_client : remote) (w : world),
    (forall e, (handler c ec2_client w).1 = Raise e ->
               exn_cls e <> ClientError) /\
    (forall call e,
        calls (handler c ec2_client w).2 = calls w ++ [call] ->
        ec2_client (calls w) call = Raise e ->
        exn_cls e = ClientError ->
        reports_failure c e (handler c ec2_client w) w) /\
    (forall call e,
        calls (handler c ec2_client w).2 = calls w ++ [call] ->
        ec2_client (calls w) call = Raise e ->
        exn_cls e <> ClientError ->
        (handler c ec2_client w).1 = Raise e).
Proof.
  intros c ec2_client w. split_and!.
  - intros e. apply handlers_contain_client_errors.
  - intros call e. destruct c; cbn [handler].
    + apply list_reports_failure.
    + now apply create_reports_failure.
    + apply (stop_like_reports_failure CmdStop ec2_client "Stop EC2 Instance"
               "Instance ID to stop: " StopInstances
               "Success: Stop request sent for instance "
               "Error: Failed to stop instance ");
        [exists "Error: ", " instance "; reflexivity|reflexivity].
    + apply (stop_like_reports_failure CmdStart ec2_client "Start EC2 Instance"
               "Instance ID to start: " StartInstances
               "Success: Start request sent for instance "
               "Error: Failed to start instance ");
        [exists "Error: ", " instance "; reflexivity|reflexivity].
    + apply (stop_like_reports_failure CmdReboot ec2_client
               "Reboot EC2 Instance" "Instance ID to reboot: " RebootInstances
               "Success: Reboot request sent for instance "
               "Error: Failed to reboot instance ");
        [exists "Error: ", " instance "; reflexivity|reflexivity].
    + now apply terminate_reports_failure.
  - intros call e. destruct c; cbn [handler].
    + apply list_lets_through.
    + now apply create_lets_through.
    + now apply (stop_like_lets_through ec2_client "Stop EC2 Instance"
                   "Instance ID to stop: " StopInstances
                   "Success: Stop request sent for instance "
                   "Error: Failed to stop instance ").
    + now apply (stop_like_lets_through ec2_client "Start EC2 Instance"
                   "Instance ID to start: " StartInstances
                   "Success: Start request sent for instance "
                   "Error: Failed to start instance ").
    + now apply (stop_like_lets_through ec2_client "Reboot EC2 Instance"
                   "Instance ID to reboot: " RebootInstances
                   "Success: Reboot request sent for instance "
                   "Error: Failed to reboot instance ").
    + now apply terminate_lets_through.
Qed.

(** C6 (as stated) fails: a remote failure that is no [ClientError], here a
    connection error raised by the describe call, leaves the list handler as
    an exception. *)
Lemma other_remote_failures_escape :
  ~ (forall (c : command) (ec2_client : remote) (w : world) call e,
        calls (handler c ec2_client w).2 = calls w ++ [call] ->
        ec2_client (calls w) call = Raise e ->
        (handler c ec2_client w).1 = Ok tt).
Proof.
  intros H.
  specialize (H (CmdList None)
                (fun _ _ =>
                   Raise (Exn BotoCoreError
                            "Could not connect to the endpoint URL"))
                (World [] [] []) (DescribeInstances None)
                (Exn BotoCoreError "Could not connect to the endpoint URL")
                eq_refl eq_refl).
  discriminate H.
Qed.

(** ** Startup *)

Lemma create_ec2_client_ok environ boto3_client (w : world) ec2_client :
  construct environ boto3_client = Ok ec2_client ->
  create_ec2_client environ boto3_client w = (Ok ec2_client, w).
Proof.
  unfold construct, create_ec2_client. unfold_M.
  destruct (get_aws_credentials environ) as [credentials|e]; cbn;
    [|discriminate].
  destruct (boto3_client credentials) as [client|e]; cbn; [|discriminate].
  now intros [= ->].
Qed.






(** ** The theorems at sample inputs *)

Lemma extract_flattens_in_order_witness :
  _extract_instances_from_response
    (PDict [("Reservations",
              PList [PDict [("Instances", PList [sample_instance "i-111" "running"])];
                     PDict [("Instances", PList [sample_instance "i-222" "stopped"])]])])
  = Ok (PList [PDict [("id", PStr "i-111"); ("state", PStr "running");
                      ("type", PStr "t2.micro"); ("az", PStr "us-west-2a")];
               PDict [("id", PStr "i-222"); ("state", PStr "stopped");
                      ("type", PStr "t2.micro"); ("az", PStr "us-west-2a")]]).
Proof.
  refine (proj1 (proj1 extract_flattens_in_order
                   [("Reservations",
                      PList [PDict [("Instances", PList [sample_instance "i-111" "running"])];
                             PDict [("Instances", PList [sample_instance "i-222" "stopped"])]])]
                   [PDict [("Instances", PList [sample_instance "i-111" "running"])];
                    PDict [("Instances", PList [sample_instance "i-222" "stopped"])]]
                   eq_refl _)).
  repeat constructor; eexists _, _; (split; [reflexivity|]);
    (split; [reflexivity|]); repeat constructor; eexists; reflexivity.
Defined.

Lemma resolve_fails_or_defaults_region_witness :
  (exists msg, get_aws_credentials ∅ = Raise (Exn ValueError msg)) /\
  (exists credentials,
      get_aws_credentials sample_environ = Ok credentials /\
      credentials !! "region_name" = Some "us-east-1").
Proof.
  split.
  - apply (proj1 (resolve_fails_or_defaults_region ∅)). left. reflexivity.
  - destruct (proj2 (resolve_fails_or_defaults_region sample_environ) "A" "B")
      as (credentials & Hok & _ & _ & _ & Hdefault);
      [reflexivity|discriminate|reflexivity|discriminate|].
    exists credentials. split; [exact Hok|]. apply Hdefault. reflexivity.
Defined.

Lemma session_token_iff_present_witness :
  (exists credentials,
      get_aws_credentials sample_environ_with_token = Ok credentials /\
      credentials !! "aws_session_token" = Some "T" /\
      "aws_session_token" ∈ dom credentials) /\
  (exists credentials,
      get_aws_credentials sample_environ = Ok credentials /\
      credentials !! "aws_session_token" = None /\
      "aws_session_token" ∉ dom credentials).
Proof.
  split.
  - destruct (proj1 (session_token_iff_present sample_environ_with_token)
                "A" "B")
      as (credentials & Hok & Hsome & _);
      [reflexivity|discriminate|reflexivity|discriminate|].
    exists credentials. split; [exact Hok|].
    apply (Hsome "T"); [reflexivity|discriminate].
  - destruct (proj1 (session_token_iff_present sample_environ) "A" "B")
      as (credentials & Hok & _ & Hnone);
      [reflexivity|discriminate|reflexivity|discriminate|].
    exists credentials. split; [exact Hok|].
    apply Hnone. left. reflexivity.
Defined.


Lemma client_errors_caught_and_reported_witness :
  ((list_instances refusing_client None (World [] [] [])).1 = Ok tt /\
   Printed (nl +:+ "Error: Failed to list instances.")
   ∈ stdout (list_instances refusing_client None (World [] [] [])).2) /\
  (stop_instance unreachable_client (World [Line "i-1"] [] [])).1
  = Raise (Exn BotoCoreError "Could not connect to the endpoint URL").
Proof.
  split.
  - destruct (proj1 (proj2 (client_errors_caught_and_reported (CmdList None)
                              refusing_client (World [] [] [])))
                (DescribeInstances None)
                (Exn ClientError
                   "An error occurred (UnauthorizedOperation) when calling the operation")
                eq_refl eq_refl eq_refl) as [Hok _].
    split; [exact Hok|]. cbn. set_solver.
  - refine (proj2 (proj2 (client_errors_caught_and_reported CmdStop
                            unreachable_client (World [Line "i-1"] [] [])))
              (StopInstances ["i-1"])
              (Exn BotoCoreError "Could not connect to the endpoint URL")
              eq_refl eq_refl _).
    discriminate.
Defined.




Lemma empty_filter_makes_no_call_witness :
  handle_filter_by_state accepting_client (World [Line "   "] [] [])
  = (Ok tt,
     World [] (filter_heading ++ [Printed "Error: State cannot be empty."]) []).
Proof.
  exact (empty_filter_makes_no_call accepting_client "   " [] [] [] eq_refl).
Defined.

(** * Further properties *)

(** ** Extraction on arbitrary data *)

Lemma visit_field_is_field name (value : pyval) :
  visit_field name value = Ok (field value name).
Proof. destruct value; reflexivity. Qed.

Lemma visit_projected (value : pyval) :
  visit
    (MultiSelectDict
       [("id", Field "InstanceId");
        ("state", Subexpression [Field "State"; Field "Name"]);
        ("type", Field "InstanceType");
        ("az", Subexpression [Field "Placement"; Field "AvailabilityZone"])])
    value
  = Ok (if is_none value then PNone else summary value).
Proof.
  cbn [visit visit_pairs visit_children].
  destruct (is_none value); [reflexivity|].
  rewrite !visit_field_is_field. cbn [mbind result_bind rbind].
  rewrite !visit_field_is_field. reflexivity.
Qed.

Lemma collect_projected (items : list pyval) :
  collect
    (visit
       (MultiSelectDict
          [("id", Field "InstanceId");
           ("state", Subexpression [Field "State"; Field "Name"]);
           ("type", Field "InstanceType");
           ("az", Subexpression [Field "Placement"; Field "AvailabilityZone"])]))
    items
  = Ok (map summary (present items)).
Proof.
  induction items as [|item rest IH]; [reflexivity|].
  cbn [collect]. rewrite visit_projected, IH.
  cbn [mbind result_bind rbind]. unfold present. cbn [filter].
  destruct item; reflexivity.
Qed.

(** X1. Whatever the response holds, extraction returns a sequence whose
    every element is a record with exactly the keys id, state, type, az. *)
Theorem extract_yields_summaries :
  forall response : pyval,
    exists summaries,
      _extract_instances_from_response response = Ok (PList summaries) /\
      Forall is_summary summaries.
Proof.
  intros response. unfold _extract_instances_from_response, search, expression.
  match goal with |- context [visit (Projection ?l ?r) response] =>
    change (visit (Projection l r) response)
      with (base ← visit l response;
            match base with
            | PList items =>
                collected ← collect (visit r) items; Ok (PList collected)
            | _ => Ok PNone
            end)
  end.
  match goal with |- context [visit ?l response] =>
    destruct (visit_ok l response) as [base ->]
  end.
  cbn [mbind result_bind rbind].
  assert (Forall is_summary []) as Hnil by constructor.
  destruct base; cbn [truthy]; eauto.
  rewrite collect_projected. cbn [mbind result_bind rbind].
  exists (map summary (present items)). split.
  - destruct (map summary (present items)); reflexivity.
  - apply Forall_forall. intros x Hx.
    apply list_elem_of_fmap in Hx as (inst & -> & _).
    unfold is_summary, summary. eauto 10.
Qed.

Lemma collect_instances_loose (reservations : list pyval) :
  Forall is_loose_reservation reservations ->
  exists groups,
    collect (visit (Field "Instances")) reservations = Ok (map PList groups) /\
    concat groups = concat (map instances_of reservations).
Proof.
  induction 1 as [|r rest (entries & -> & Hcase) _ (groups & Hc & Hg)].
  - exists []. split; reflexivity.
  - cbn [collect map]. rewrite Hc.
    unfold instances_of, field. cbn [visit visit_field py_get].
    destruct Hcase as [-> | [-> | [insts ->]]]; cbn.
    + exists groups. split; [reflexivity|exact Hg].
    + exists groups. split; [reflexivity|exact Hg].
    + exists (insts :: groups). split; [reflexivity|]. cbn. now rewrite Hg.
Qed.

Lemma merge_loose_reservations (items : list pyval) :
  Forall is_loose_reservation items -> merge items = items.
Proof.
  intros H. apply merge_records.
  eapply Forall_impl; [exact H|].
  intros x (entries & -> & _). now exists entries.
Qed.

(** X2. On a response whose reservations are records, a reservation whose
    Instances entry is absent or None contributes nothing, and a None entry
    of an instance sequence is skipped; every other entry gives its summary,
    reservations in order and entries in order within each. *)
Theorem extract_skips_missing_and_null :
  forall entries reservations,
    entries_get entries "Reservations" = Some (PList reservations) ->
    Forall is_loose_reservation reservations ->
    _extract_instances_from_response (PDict entries)
    = Ok (PList (map summary
                   (present (concat (map instances_of reservations))))).
Proof.
  intros entries reservations Hget Hres.
  destruct (collect_instances_loose _ Hres) as (groups & Hc & Hg).
  assert (search expression (PDict entries)
          = Ok (PList (map summary
                         (present (concat (map instances_of reservations))))))
    as Hsearch.
  { unfold search, expression. rewrite <- Hg.
    eapply visit_Projection_list; [|apply collect_projected].
    rewrite <- merge_lists. apply visit_Flatten_list.
    eapply visit_Projection_list; [|exact Hc].
    rewrite <- (merge_loose_reservations reservations Hres).
    apply visit_Flatten_list.
    cbn [visit visit_field py_get]. now rewrite Hget. }
  unfold _extract_instances_from_response. rewrite Hsearch.
  cbn [mbind result_bind rbind].
  destruct (map summary _); reflexivity.
Qed.

Lemma extract_skips_missing_and_null_witness :
  _extract_instances_from_response
    (PDict [("Reservations",
              PList [PDict [("ReservationId", PStr "r-1")];
                     PDict [("Instances",
                              PList [PNone; sample_instance "i-9" "pending"])];
                     PDict [("Instances", PNone)]])])
  = Ok (PList [PDict [("id", PStr "i-9"); ("state", PStr "pending");
                      ("type", PStr "t2.micro"); ("az", PStr "us-west-2a")]]).
Proof.
  refine (extract_skips_missing_and_null
            [("Reservations",
               PList [PDict [("ReservationId", PStr "r-1")];
                      PDict [("Instances",
                               PList [PNone; sample_instance "i-9" "pending"])];
                      PDict [("Instances", PNone)]])]
            [PDict [("ReservationId", PStr "r-1")];
             PDict [("Instances",
                      PList [PNone; sample_instance "i-9" "pending"])];
             PDict [("Instances", PNone)]]
            eq_refl _).
  repeat constructor; eexists; (split; [reflexivity|]).
  - left. reflexivity.
  - right. right. eexists. reflexivity.
  - right. left. reflexivity.
Defined.

(** ** Prompting *)



(** X4. When the input holds nothing but blank lines, [_prompt_non_empty]
    complains about each of them and ends with [EOFError]; when the interrupt
    key follows the blank lines it ends with [KeyboardInterrupt]. *)
Theorem prompt_ends_with_the_input :
  forall (prompt_text : string) (blanks : list string)
         (out : list output) (cs : list api_call),
    Forall blank blanks ->
    (exists e,
        exn_cls e = EOFError /\
        _prompt_non_empty prompt_text (World (Line <$> blanks) out cs)
        = (Raise e,
           World [] (out ++ prompt_transcript prompt_text (length blanks)) cs)) /\
    (forall rest, exists e,
        exn_cls e = KeyboardInterrupt /\
        _prompt_non_empty prompt_text
          (World ((Line <$> blanks) ++ CtrlC :: rest) out cs)
        = (Raise e,
           World rest
             (out ++ prompt_transcript prompt_text (length blanks)) cs)).
Proof.
  intros prompt_text blanks out cs Hblanks. revert out.
  induction Hblanks as [|b blanks Hb _ IH]; intros out.
  - split; [|intros rest]; eexists; (split; [|reflexivity]); reflexivity.
  - unfold blank in Hb.
    destruct (IH ((out ++ [Prompted prompt_text])
                  ++ [Printed required_message])) as [(e & He & Hrun) Hint].
    split.
    + exists e. split; [exact He|].
      rewrite _prompt_non_empty_unfold.
      change (Line <$> b :: blanks) with (Line b :: (Line <$> blanks)).
      unfold_M. rewrite Hb. cbn [String.eqb negb stdin stdout calls].
      rewrite Hrun.
      unfold prompt_transcript. cbn. now rewrite <- !app_assoc.
    + intros rest. destruct (Hint rest) as (e' & He' & Hrun').
      exists e'. split; [exact He'|].
      rewrite _prompt_non_empty_unfold.
      change ((Line <$> b :: blanks) ++ CtrlC :: rest)
        with (Line b :: ((Line <$> blanks) ++ CtrlC :: rest)).
      unfold_M. rewrite Hb. cbn [String.eqb negb stdin stdout calls].
      rewrite Hrun'.
      unfold prompt_transcript. cbn. now rewrite <- !app_assoc.
Qed.

Lemma prompt_ends_with_the_input_witness :
  exists e,
    exn_cls e = EOFError /\
    _prompt_non_empty "Enter value: " (World [Line " "] [] [])
    = (Raise e,
       World []
         [Prompted "Enter value: "; Printed required_message;
          Prompted "Enter value: "] []).
Proof.
  refine (proj1 (prompt_ends_with_the_input "Enter value: " [" "] [] [] _)).
  repeat constructor.
Defined.

(** X5. Whatever the input holds, [_prompt_non_empty] never returns an empty
    text, never makes a remote call, only adds to the output, and raises
    nothing but the two exceptions of [input]. *)
Theorem prompt_never_returns_empty :
  forall (prompt_text : string) (w : world),
    calls (_prompt_non_empty prompt_text w).2 = calls w /\
    (exists added,
        stdout (_prompt_non_empty prompt_text w).2 = stdout w ++ added) /\
    (forall value, (_prompt_non_empty prompt_text w).1 = Ok value ->
                   value <> "") /\
    (forall e, (_prompt_non_empty prompt_text w).1 = Raise e ->
               exn_cls e = EOFError \/ exn_cls e = KeyboardInterrupt).
Proof.
  intros prompt_text w.
  destruct (prompt_outcome prompt_text w) as (Hc & Hout & Hr).
  split_and!; try assumption.
  - intros value Hv. now rewrite Hv in Hr.
  - intros e He. now rewrite He in Hr.
Qed.

Lemma prompt_never_returns_empty_witness :
  (_prompt_non_empty "Enter value: " (World [Line " "; Line " a "] [] [])).1
  = Ok "a" /\ "a" <> "".
Proof.
  split; [reflexivity|].
  exact (proj1 (proj2 (proj2 (prompt_never_returns_empty "Enter value: "
                                (World [Line " "; Line " a "] [] []))))
           "a" eq_refl).
Defined.

(** ** Listing *)

(** X6. [list_instances] always makes exactly one describe call; the call
    carries the state filter exactly when one is given and is not the empty
    text, so an empty filter lists everything. *)
Theorem list_makes_one_describe_call :
  forall (ec2_client : remote) (state_filter : option string) (w : world),
    calls (list_instances ec2_client state_filter w).2
    = calls w ++ [describe_call state_filter] /\
    describe_call None = DescribeInstances None /\
    describe_call (Some "") = DescribeInstances None /\
    (forall state, state <> "" ->
       describe_call (Some state)
       = DescribeInstances (Some [Filter "instance-state-name" [state]])).
Proof.
  intros ec2_client state_filter w. split_and!.
  - apply list_instances_calls.
  - reflexivity.
  - reflexivity.
  - intros state Hne. unfold describe_call. cbn.
    destruct (String.eqb_spec state ""); [contradiction|reflexivity].
Qed.

Lemma list_makes_one_describe_call_witness :
  describe_call (Some "running")
  = DescribeInstances (Some [Filter "instance-state-name" ["running"]]).
Proof.
  refine (proj2 (proj2 (proj2 (list_makes_one_describe_call accepting_client
                                 None (World [] [] []))))
            "running" _).
  discriminate.
Defined.

(** The handler once the response is in and extraction has given its
    sequence. *)
Lemma list_after_extraction ec2_client state_filter (w : world) response
  instances :
  ec2_client (calls w) (describe_call state_filter) = Ok response ->
  _extract_instances_from_response response = Ok instances ->
  list_instances ec2_client state_filter w
  = try_except
      (if negb (truthy instances) then
         if truthy_env state_filter
         then print (nl +:+ "No instances found in state: "
                     +:+ default "" state_filter)
         else print (nl +:+ "No instances found in this account or region.")
       else
         print (nl +:+ rule 70);;
         (if truthy_env state_filter
          then print ("Instances with state: " +:+ default "" state_filter)
          else print "All Instances");;
         print (rule 70);;
         rows ← lift (py_iter instances);
         print_rows rows;;
         print (rule 70))
      (fun exc =>
         match exn_cls exc with
         | ClientError =>
             Some (print (nl +:+ "Error: Failed to list instances.");;
                   print ("Details: " +:+ exn_str exc))
         | _ => None
         end)
      (World (stdin w) (stdout w) (calls w ++ [describe_call state_filter])).
Proof.
  intros Hcall Hextract. unfold list_instances, describe_call in *.
  unfold try_except.
  unfold mbind at 1 2, M_mbind, M_bind at 1 2.
  unfold mbind at 8 9, M_mbind, M_bind at 8 9.
  destruct (truthy_env state_filter); unfold invoke, lift;
    cbn [stdin stdout calls]; rewrite Hcall, Hextract; reflexivity.
Qed.

(** X7. When the describe call succeeds and extraction finds no instance,
    [list_instances] prints one line and returns: the line names the state
    when a filter was given, and the account or region otherwise. *)
Theorem list_reports_no_instances :
  forall (ec2_client : remote) (state_filter : option string) (w : world)
         (response : pyval),
    ec2_client (calls w) (describe_call state_filter) = Ok response ->
    _extract_instances_from_response response = Ok (PList []) ->
    list_instances ec2_client state_filter w
    = (Ok tt,
       World (stdin w)
         (stdout w ++
          [Printed
             (if truthy_env state_filter
              then nl +:+ "No instances found in state: "
                   +:+ default "" state_filter
              else nl +:+ "No instances found in this account or region.")])
         (calls w ++ [describe_call state_filter])).
Proof.
  intros ec2_client state_filter w response Hcall Hextract.
  rewrite (list_after_extraction _ _ _ _ _ Hcall Hextract).
  cbn [truthy negb]. unfold_M.
  destruct (truthy_env state_filter); reflexivity.
Qed.

Lemma list_reports_no_instances_witness :
  list_instances accepting_client (Some "stopped") (World [] [] [])
  = (Ok tt,
     World [] [Printed (nl +:+ "No instances found in state: stopped")]
       [DescribeInstances
          (Some [Filter "instance-state-name" ["stopped"]])]).
Proof.
  exact (list_reports_no_instances accepting_client (Some "stopped")
           (World [] [] []) (PDict []) eq_refl eq_refl).
Defined.

Lemma format_text_row (row : string * string * string * string) :
  format_row (text_summary row) = Ok (row_text row).
Proof. destruct row as [[[id state] type] az]. reflexivity. Qed.

Lemma print_text_rows (rows : list (string * string * string * string))
  (w : world) :
  print_rows (map text_summary rows) w
  = (Ok tt,
     World (stdin w)
       (stdout w ++ map (fun row => Printed (row_text row)) rows)
       (calls w)).
Proof.
  revert w. induction rows as [|row rows IH]; intros [ins out cs].
  - cbn. now rewrite app_nil_r.
  - cbn [map print_rows]. unfold mbind at 1 2, M_mbind, M_bind at 1 2.
    unfold lift. rewrite format_text_row. unfold print at 1, emit.
    cbn [stdin stdout calls]. rewrite IH. cbn [stdin stdout calls].
    now rewrite <- app_assoc.
Qed.

(** X8. When the describe call succeeds and extraction gives summaries whose
    four fields are texts, [list_instances] prints a ruled heading (with the
    state when a filter was given), one row per instance in the order of the
    extraction, each field padded to its column, and a closing rule. *)
Theorem list_prints_one_row_per_instance :
  forall (ec2_client : remote) (state_filter : option string) (w : world)
         (response : pyval)
         (row : string * string * string * string)
         (rows : list (string * string * string * string)),
    ec2_client (calls w) (describe_call state_filter) = Ok response ->
    _extract_instances_from_response response
    = Ok (PList (map text_summary (row :: rows))) ->
    list_instances ec2_client state_filter w
    = (Ok tt,
       World (stdin w)
         (stdout w ++
          [Printed (nl +:+ rule 70);
           Printed (if truthy_env state_filter
                    then "Instances with state: " +:+ default "" state_filter
                    else "All Instances");
           Printed (rule 70)]
          ++ map (fun r => Printed (row_text r)) (row :: rows)
          ++ [Printed (rule 70)])
         (calls w ++ [describe_call state_filter])).
Proof.
  intros ec2_client state_filter w response row rows Hcall Hextract.
  rewrite (list_after_extraction _ _ _ _ _ Hcall Hextract).
  cbn [truthy map negb]. unfold try_except.
  unfold mbind at 1 2 3 4 5, M_mbind, M_bind at 1 2 3 4 5.
  unfold print at 1, emit. cbn [stdin stdout calls].
  assert (forall w0 : world,
             (if truthy_env state_filter
              then print ("Instances with state: " +:+ default "" state_filter)
              else print "All Instances") w0
             = (Ok tt,
                emit (Printed
                        (if truthy_env state_filter
                         then "Instances with state: "
                              +:+ default "" state_filter
                         else "All Instances")) w0)) as Hhead
      by (intros w0; destruct (truthy_env state_filter); reflexivity).
  rewrite Hhead. unfold print at 1, emit, lift. cbn [stdin stdout calls py_iter].
  change (text_summary row :: map text_summary rows)
    with (map text_summary (row :: rows)).
  rewrite print_text_rows. unfold print, emit. cbn [stdin stdout calls].
  rewrite <- !app_assoc. reflexivity.
Qed.

Lemma list_prints_one_row_per_instance_witness :
  let client : remote :=
    fun _ _ =>
      Ok (PDict [("Reservations",
                   PList [PDict [("Instances",
                                   PList [sample_instance "i-1" "running"])]])]) in
  stdout (list_instances client None (World [] [] [])).2
  = [Printed (nl +:+ rule 70);
     Printed "All Instances";
     Printed (rule 70);
     Printed "ID: i-1                  State: running      Type: t2.micro     AZ: us-west-2a";
     Printed (rule 70)].
Proof.
  intros client.
  rewrite (list_prints_one_row_per_instance client None (World [] [] [])
             (PDict [("Reservations",
                       PList [PDict [("Instances",
                                       PList [sample_instance "i-1" "running"])]])])
             ("i-1", "running", "t2.micro", "us-west-2a") []
             eq_refl eq_refl).
  reflexivity.
Defined.

(** X9. A summary without identifier stops the listing: when the first
    extracted summary has None as its id, [list_instances] prints the
    heading and then fails with a [TypeError] that its [except ClientError]
    does not catch; no row is printed. *)
Theorem list_fails_on_missing_identifier :
  forall (ec2_client : remote) (state_filter : option string) (w : world)
         (response state type az : pyval) (others : list pyval),
    ec2_client (calls w) (describe_call state_filter) = Ok response ->
    _extract_instances_from_response response
    = Ok (PList (PDict [("id", PNone); ("state", state); ("type", type);
                        ("az", az)] :: others)) ->
    exists e,
      exn_cls e = TypeError /\
      list_instances ec2_client state_filter w
      = (Raise e,
         World (stdin w)
           (stdout w ++
            [Printed (nl +:+ rule 70);
             Printed (if truthy_env state_filter
                      then "Instances with state: " +:+ default "" state_filter
                      else "All Instances");
             Printed (rule 70)])
           (calls w ++ [describe_call state_filter])).
Proof.
  intros ec2_client state_filter w response state type az others
    Hcall Hextract.
  rewrite (list_after_extraction _ _ _ _ _ Hcall Hextract).
  eexists. split; [|unfold_M; destruct (truthy_env state_filter);
                    cbn; norm_world; reflexivity].
  reflexivity.
Qed.

Lemma list_fails_on_missing_identifier_witness :
  let client : remote :=
    fun _ _ =>
      Ok (PDict [("Reservations",
                   PList [PDict [("Instances", PList [PDict []])]])]) in
  exists e,
    exn_cls e = TypeError /\
    (list_instances client None (World [] [] [])).1 = Raise e.
Proof.
  intros client.
  destruct (list_fails_on_missing_identifier client None (World [] [] [])
              (PDict [("Reservations",
                        PList [PDict [("Instances", PList [PDict []])]])])
              PNone PNone PNone [] eq_refl eq_refl) as (e & He & Hrun).
  exists e. split; [exact He|]. now rewrite Hrun.
Defined.

(** ** The handlers that act on one identifier *)




(** ** The state-filter entry point with a known state *)

(** X11. When the entry, stripped and lower-cased, is one of the five known
    states, the state-filter handler prints no warning and runs the list
    operation filtered on that state. *)
Theorem known_state_lists_without_warning :
  forall (ec2_client : remote) (entered : string) (rest : list input_event)
         (out : list output) (cs : list api_call),
    In (lower (strip entered)) valid_states ->
    handle_filter_by_state ec2_client (World (Line entered :: rest) out cs)
    = list_instances ec2_client (Some (lower (strip entered)))
        (World rest (out ++ filter_heading) cs) /\
    calls (handle_filter_by_state ec2_client
             (World (Line entered :: rest) out cs)).2
    = cs ++ [DescribeInstances
               (Some [Filter "instance-state-name" [lower (strip entered)]])].
Proof.
  intros ec2_client entered rest out cs Hknown.
  assert (lower (strip entered) <> "") as Hne.
  { intros Heq. rewrite Heq in Hknown. cbn in Hknown.
    repeat (destruct Hknown as [Hknown|Hknown]; [discriminate Hknown|]).
    exact Hknown. }
  assert (handle_filter_by_state ec2_client
            (World (Line entered :: rest) out cs)
          = list_instances ec2_client (Some (lower (strip entered)))
              (World rest (out ++ filter_heading) cs)) as Hrun.
  { unfold handle_filter_by_state.
    do 9 (unfold mbind at 1, M_mbind, M_bind at 1; unfold print at 1, emit;
          cbn [stdin stdout calls]).
    unfold mbind at 1, M_mbind, M_bind at 1.
    unfold input, read_event, emit, set_stdin. cbn [stdin stdout calls].
    destruct (String.eqb_spec (lower (strip entered)) ""); [contradiction|].
    apply str_in_spec in Hknown. rewrite Hknown. cbn [negb].
    unfold mbind at 1, M_mbind, M_bind at 1. unfold mret, M_mret, M_ret.
    unfold filter_heading. norm_world. reflexivity. }
  split; [exact Hrun|].
  rewrite Hrun, list_instances_calls. cbn [calls truthy_env default].
  destruct (String.eqb_spec (lower (strip entered)) ""); [contradiction|].
  reflexivity.
Qed.

Lemma known_state_lists_without_warning_witness :
  handle_filter_by_state accepting_client (World [Line " RUNNING "] [] [])
  = (Ok tt,
     World []
       (filter_heading
        ++ [Printed (nl +:+ "No instances found in state: running")])
       [DescribeInstances (Some [Filter "instance-state-name" ["running"]])]).
Proof.
  rewrite (proj1 (known_state_lists_without_warning accepting_client
                    " RUNNING " [] [] [] (or_intror (or_introl eq_refl)))).
  reflexivity.
Defined.

(** ** One call at most *)

Lemma at_most_one_quiet (allowed : api_call -> Prop) {A} (m : M A) :
  quiet m -> at_most_one allowed m.
Proof. intros Hq w. left. apply Hq. Qed.

Lemma at_most_one_bind (allowed : api_call -> Prop) {A B} (m : M A)
  (k : A -> M B) :
  quiet m -> (forall a, at_most_one allowed (k a)) ->
  at_most_one allowed (m ≫= k).
Proof.
  intros Hm Hk w. unfold mbind, M_mbind, M_bind.
  specialize (Hm w). destruct (m w) as [[a|e] w']; cbn [fst snd] in *.
  - rewrite <- Hm. apply Hk.
  - left. exact Hm.
Qed.

Lemma at_most_one_if (allowed : api_call -> Prop) {A} (b : bool)
  (m1 m2 : M A) :
  at_most_one allowed m1 -> at_most_one allowed m2 ->
  at_most_one allowed (if b then m1 else m2).
Proof. now destruct b. Qed.

Lemma at_most_one_guarded (allowed : api_call -> Prop) {A}
  (ec2_client : remote) (call : api_call) (after : pyval -> M A) handler :
  allowed call ->
  (forall response, quiet (after response)) ->
  (forall e clause, handler e = Some clause -> quiet clause) ->
  at_most_one allowed (try_except (invoke ec2_client call ≫= after) handler).
Proof.
  intros Hallowed Hafter Hclause w. right. exists call.
  split; [now apply guarded_call_logged|exact Hallowed].
Qed.

(** A prompt in front of a block that needs a non-empty answer. *)
Lemma at_most_one_prompt (allowed : api_call -> Prop) {B}
  (prompt_text : string) (k : string -> M B) :
  (forall value, value <> "" -> at_most_one allowed (k value)) ->
  at_most_one allowed (_prompt_non_empty prompt_text ≫= k).
Proof.
  intros Hk w. unfold mbind, M_mbind, M_bind.
  destruct (prompt_outcome prompt_text w) as (Hc & _ & Hr).
  destruct (_prompt_non_empty prompt_text w) as [[value|e] w'];
    cbn [fst snd] in *.
  - rewrite <- Hc. now apply Hk.
  - left. exact Hc.
Qed.

(** X12. Each of the six handlers issues at most one remote call, and only
    its own operation: the list handler its describe call, the create
    handler a launch of exactly one instance with non-empty identifiers, and
    stop, start, reboot and terminate their call on a singleton list of a
    non-empty identifier. The same bound holds for the state-filter entry
    point, whose only call is a describe call. *)
Theorem handlers_issue_at_most_one_call :
  forall (ec2_client : remote),
    (forall c, at_most_one (call_of c) (handler c ec2_client)) /\
    at_most_one (fun call => exists filters, call = DescribeInstances filters)
      (handle_filter_by_state ec2_client).
Proof.
  intros ec2_client. split.
  - intros c. destruct c; cbn [handler].
    + intros w. right. exists (describe_call state_filter).
      split; [apply list_instances_calls|reflexivity].
    + unfold create_instance.
      do 5 (apply at_most_one_bind; [solve_quiet|intros _]).
      apply at_most_one_prompt. intros ami_id Hami.
      apply at_most_one_prompt. intros instance_type Htype.
      apply at_most_one_guarded;
        [exists ami_id, instance_type; auto|intros; solve_quiet|solve_clause].
    + unfold stop_instance.
      do 3 (apply at_most_one_bind; [solve_quiet|intros _]).
      apply at_most_one_prompt. intros id Hid.
      apply at_most_one_guarded;
        [exists id; auto|intros; solve_quiet|solve_clause].
    + unfold start_instance.
      do 3 (apply at_most_one_bind; [solve_quiet|intros _]).
      apply at_most_one_prompt. intros id Hid.
      apply at_most_one_guarded;
        [exists id; auto|intros; solve_quiet|solve_clause].
    + unfold reboot_instance.
      do 3 (apply at_most_one_bind; [solve_quiet|intros _]).
      apply at_most_one_prompt. intros id Hid.
      apply at_most_one_guarded;
        [exists id; auto|intros; solve_quiet|solve_clause].
    + unfold terminate_instance.
      do 4 (apply at_most_one_bind; [solve_quiet|intros _]).
      apply at_most_one_prompt. intros id Hid.
      apply at_most_one_bind; [solve_quiet|intros answer].
      apply at_most_one_if.
      * apply at_most_one_quiet. solve_quiet.
      * apply at_most_one_guarded;
          [exists id; auto|intros; solve_quiet|solve_clause].
  - unfold handle_filter_by_state.
    do 9 (apply at_most_one_bind; [solve_quiet|intros _]).
    apply at_most_one_bind; [solve_quiet|intros entered].
    apply at_most_one_if.
    + apply at_most_one_quiet. solve_quiet.
    + apply at_most_one_bind; [solve_quiet|intros _].
      intros w. right. eexists. split; [apply list_instances_calls|eauto].
Qed.

(** ** A launch whose response cannot be read *)




(** ** The menu loop *)

Lemma print_menu_run (ins : list input_event) out cs :
  print_menu (World ins out cs)
  = (Ok tt,
     World ins
       (out ++
        [Printed (nl +:+ rule 50);
         Printed "Cloud Instance Manager";
         Printed (rule 50);
         Printed "1. List all instances";
         Printed "2. Create new instance";
         Printed "3. Stop instance";
         Printed "4. Start instance";
         Printed "5. Reboot instance";
         Printed "6. Terminate instance";
         Printed "7. Filter instances by state";
         Printed "0. Exit";
         Printed (rule 50)])
       cs).
Proof.
  unfold print_menu.
  do 11 (unfold mbind at 1, M_mbind, M_bind at 1; unfold print at 1, emit;
         cbn [stdin stdout calls]).
  unfold print, emit. cbn [stdin stdout calls]. norm_world. reflexivity.
Qed.

(** Runs a round of the menu up to the point where the option has been
    read (or the read has failed). *)
Ltac read_option :=
  unfold menu_round, try_except;
  unfold mbind at 1, M_mbind, M_bind at 1;
  rewrite print_menu_run;
  unfold mbind at 1, M_mbind, M_bind at 1;
  unfold input at 1, read_event, emit, set_stdin;
  cbn [stdin stdout calls].

Lemma menu_round_at_end_of_input (ec2_client : remote) out cs :
  menu_round ec2_client (World [] out cs)
  = (Ok Continue,
     World []
       (out ++ menu_text ++
        [Printed (nl +:+ "Unexpected error: EOF when reading a line");
         Printed "Please try again or contact support."])
       cs).
Proof.
  read_option. cbn [exn_cls exn_str is_Exception].
  unfold mbind, M_mbind, M_bind, mret, M_mret, M_ret, print, emit.
  cbn [stdin stdout calls]. unfold menu_text. norm_world. reflexivity.
Qed.

(** X14. At end of input the menu loop never ends: the [EOFError] of the
    option prompt is caught by the loop's [except Exception], the round asks
    to continue, and no number of rounds suffices. The same holds for [main]
    once the client has been constructed. *)
Theorem menu_loop_spins_at_end_of_input :
  forall (ec2_client : remote) (fuel : nat) (out : list output)
         (cs : list api_call),
    menu_loop ec2_client fuel (World [] out cs) = None /\
    (forall environ boto3_client,
        construct environ boto3_client = Ok ec2_client ->
        main environ boto3_client fuel (World [] out cs) = None).
Proof.
  intros ec2_client fuel.
  assert (forall out cs, menu_loop ec2_client fuel (World [] out cs) = None)
    as Hloop.
  { induction fuel as [|fuel IH]; intros out cs; [reflexivity|].
    cbn [menu_loop]. rewrite menu_round_at_end_of_input. apply IH. }
  intros out cs. split; [apply Hloop|].
  intros environ boto3_client Hok. unfold main.
  rewrite (create_ec2_client_ok _ _ _ _ Hok). apply Hloop.
Qed.

Lemma menu_loop_spins_at_end_of_input_witness :
  main sample_environ sample_sdk 100 (World [] [] []) = None.
Proof.
  exact (proj2 (menu_loop_spins_at_end_of_input accepting_client 100 [] [])
           sample_environ sample_sdk eq_refl).
Defined.

(** X15. Nothing but a [SystemExit] can leave a round of the menu, and so
    the menu loop: every [Exception] a handler lets through (a botocore
    error, a [KeyError], an [EOFError]) and every [KeyboardInterrupt] is
    caught by the two clauses of the loop. *)
Theorem only_system_exit_leaves_the_menu :
  forall (ec2_client : remote) (w : world),
    (forall e, (menu_round ec2_client w).1 = Raise e ->
               exists code, exn_cls e = SystemExit code) /\
    (forall fuel e w',
        menu_loop ec2_client fuel w = Some (Raise e, w') ->
        exists code, exn_cls e = SystemExit code).
Proof.
  intros ec2_client.
  assert (forall w e, (menu_round ec2_client w).1 = Raise e ->
                      exists code, exn_cls e = SystemExit code) as Hround.
  { intros w e. unfold menu_round, try_except.
    match goal with |- context [?body w] =>
      destruct (body w) as [[control|e'] w']
    end; cbn [fst]; [discriminate|].
    unfold is_Exception.
    destruct (exn_cls e') eqn:Hcls; cbn; try discriminate.
    intros [= <-]. eauto. }
  intros w. split; [apply Hround|].
  intros fuel. revert w.
  induction fuel as [|fuel IH]; intros w e w'; cbn [menu_loop]; [discriminate|].
  pose proof (Hround w) as Hw.
  destruct (menu_round ec2_client w) as [[[]|e0] w0]; cbn [fst] in Hw.
  - apply IH.
  - discriminate.
  - intros [= <- _]. now apply Hw.
Qed.

Lemma only_system_exit_leaves_the_menu_witness :
  let exiting_client : remote := fun _ _ => Raise (Exn (SystemExit 2) "2") in
  exists code,
    exn_cls (Exn (SystemExit 2) "2") = SystemExit code /\
    (menu_round exiting_client (World [Line "1"] [] [])).1
    = Raise (Exn (SystemExit 2) "2").
Proof.
  intros exiting_client.
  destruct (proj1 (only_system_exit_leaves_the_menu exiting_client
                     (World [Line "1"] [] []))
              (Exn (SystemExit 2) "2") eq_refl) as [code Hcode].
  exists code. split; [exact Hcode|reflexivity].
Defined.

(** X16. The two ways out of the menu: the option 0 (surrounding whitespace
    ignored) and the interrupt key at the option prompt both end the loop
    normally after a farewell, without any remote call. *)
Theorem menu_exits_on_zero_and_interrupt :
  forall (ec2_client : remote) (fuel : nat) (rest : list input_event)
         (out : list output) (cs : list api_call),
    (forall entered,
        strip entered = "0" ->
        menu_loop ec2_client (S fuel) (World (Line entered :: rest) out cs)
        = Some (Ok tt,
                World rest
                  (out ++ menu_text ++
                   [Printed (nl +:+ "Exiting Cloud Instance Manager. Goodbye!")])
                  cs)) /\
    menu_loop ec2_client (S fuel) (World (CtrlC :: rest) out cs)
    = Some (Ok tt,
            World rest
              (out ++ menu_text ++
               [Printed (nl +:+ nl +:+ "Operation cancelled by user.");
                Printed "Exiting Cloud Instance Manager. Goodbye!"])
              cs).
Proof.
  intros ec2_client fuel rest out cs. split.
  - intros entered Hzero. cbn [menu_loop].
    read_option. rewrite Hzero. cbn [String.eqb Ascii.eqb Bool.eqb].
    unfold mbind, M_mbind, M_bind, mret, M_mret, M_ret, print, emit.
    cbn [stdin stdout calls]. unfold menu_text. norm_world. reflexivity.
  - cbn [menu_loop]. read_option. cbn [exn_cls exn_str].
    unfold mbind, M_mbind, M_bind, mret, M_mret, M_ret, print, emit.
    cbn [stdin stdout calls]. unfold menu_text. norm_world. reflexivity.
Qed.

Lemma menu_exits_on_zero_and_interrupt_witness :
  menu_loop accepting_client 1 (World [Line " 0 "; Line "1"] [] [])
  = Some (Ok tt,
          World [Line "1"]
            (menu_text ++
             [Printed (nl +:+ "Exiting Cloud Instance Manager. Goodbye!")])
            []).
Proof.
  exact (proj1 (menu_exits_on_zero_and_interrupt accepting_client 0
                  [Line "1"] [] []) " 0 " eq_refl).
Defined.



(** ** The factory on success and on an unforeseen failure *)

(** X18. When the credentials resolve and the SDK constructs a client, the
    factory returns that client and prints nothing. When the construction
    fails with an exception that is neither a [ValueError] nor a botocore
    error, the factory prints nothing and lets the exception through; if it
    is an [Exception], [main] lets it through as well, and the process ends
    with status 1. *)
Theorem factory_passes_through :
  forall (environ : gmap string string)
         (boto3_client : gmap string string -> result remote) (w : world),
    (forall ec2_client,
        construct environ boto3_client = Ok ec2_client ->
        create_ec2_client environ boto3_client w = (Ok ec2_client, w)) /\
    (forall e,
        construct environ boto3_client = Raise e ->
        ~ is_startup_failure e ->
        create_ec2_client environ boto3_client w = (Raise e, w) /\
        (is_Exception e = true ->
         (forall fuel,
             main environ boto3_client fuel w = Some (Raise e, w)) /\
         exit_status (Raise e) = 1)).
Proof.
  intros environ boto3_client w. split.
  - intros ec2_client Hok. now apply create_ec2_client_ok.
  - intros e Hfail Hkind.
    assert (create_ec2_client environ boto3_client w = (Raise e, w)) as Hrun.
    { unfold construct, create_ec2_client in *. unfold_M.
      unfold is_startup_failure in Hkind.
      destruct (get_aws_credentials environ) as [credentials|e0]; cbn in *.
      - destruct (boto3_client credentials) as [client|e1]; cbn in *;
          [discriminate|].
        injection Hfail as ->.
        destruct (exn_cls e); try reflexivity; exfalso; apply Hkind; auto.
      - injection Hfail as ->.
        destruct (exn_cls e); try reflexivity; exfalso; apply Hkind; auto. }
    split; [exact Hrun|]. intros Hexc. unfold is_Exception in Hexc. split.
    + intros fuel. unfold main. rewrite Hrun.
      destruct (exn_cls e); try reflexivity; discriminate.
    + unfold exit_status.
      destruct (exn_cls e); try reflexivity; discriminate.
Qed.

Lemma factory_passes_through_witness :
  let failing_sdk : gmap string string -> result remote :=
    fun _ => Raise (Exn TypeError "unexpected keyword argument") in
  main sample_environ failing_sdk 5 (World [Line "0"] [] [])
  = Some (Raise (Exn TypeError "unexpected keyword argument"),
          World [Line "0"] [] []).
Proof.
  intros failing_sdk.
  refine (proj1 (proj2 (proj2 (factory_passes_through sample_environ
                                 failing_sdk (World [Line "0"] [] []))
                          (Exn TypeError "unexpected keyword argument")
                          eq_refl _) eq_refl) 5%nat).
  intros [H|[H|H]]; discriminate H.
Defined.

(** ** The credential bundle *)

(** X19. Every bundle the resolver returns holds a non-empty access key and
    a non-empty secret key, both as the environment gives them, and a
    region; it has no key besides these three and the session token. *)
Theorem bundle_is_well_formed :
  forall (environ : gmap string string) credentials,
    get_aws_credentials environ = Ok credentials ->
    (exists access secret,
        access <> "" /\ secret <> "" /\
        environ !! "AWS_ACCESS_KEY_ID" = Some access /\
        environ !! "AWS_SECRET_ACCESS_KEY" = Some secret /\
        credentials !! "aws_access_key_id" = Some access /\
        credentials !! "aws_secret_access_key" = Some secret /\
        credentials !! "region_name" = Some (get_aws_region environ)) /\
    (forall key,
        is_Some (credentials !! key) ->
        In key ["aws_access_key_id"; "aws_secret_access_key"; "region_name";
                "aws_session_token"]).
Proof.
  intros environ credentials Hok.
  destruct (credentials_ok_inv environ credentials Hok)
    as (access & secret & Ha & Hane & Hs & Hsne).
  destruct (credentials_present environ access secret Ha Hane Hs Hsne)
    as (credentials' & Hok' & Hak & Hsk & Hregion & _).
  assert (credentials' = credentials) as -> by congruence.
  split; [exists access, secret; split_and!; assumption|].
  intros key [v Hv].
  unfold get_aws_credentials, os_getenv in Hok.
  destruct (negb _ || negb _); [discriminate|].
  injection Hok as <-.
  destruct (truthy_env (environ !! "AWS_SESSION_TOKEN"));
    repeat (apply lookup_insert_Some in Hv as [[<- _]|[_ Hv]];
            [cbn; tauto|]);
    rewrite lookup_empty in Hv; discriminate.
Qed.

Lemma bundle_is_well_formed_witness :
  exists access secret,
    access <> "" /\ secret <> "" /\
    sample_environ !! "AWS_ACCESS_KEY_ID" = Some access /\
    sample_environ !! "AWS_SECRET_ACCESS_KEY" = Some secret /\
    (<["region_name" := "us-east-1"]>
       (<["aws_secret_access_key" := "B"]>
          (<["aws_access_key_id" := "A"]> ∅)) : gmap string string)
    !! "aws_access_key_id" = Some access /\
    (<["region_name" := "us-east-1"]>
       (<["aws_secret_access_key" := "B"]>
          (<["aws_access_key_id" := "A"]> ∅)) : gmap string string)
    !! "aws_secret_access_key" = Some secret /\
    (<["region_name" := "us-east-1"]>
       (<["aws_secret_access_key" := "B"]>
          (<["aws_access_key_id" := "A"]> ∅)) : gmap string string)
    !! "region_name" = Some (get_aws_region sample_environ).
Proof.
  exact (proj1 (bundle_is_well_formed sample_environ _ eq_refl)).
Defined.
